(** * JobRec: the skill/job matching engine of [JobrecBackend.py]

    A shallow embedding of the weighted bipartite graph ([_WeightedVertex],
    [WeightedGraph]), of [build_graph] and of [recommend_jobs], followed by the
    properties of the specification that concern them.

    Conventions of the embedding.
    - A Python [str] is a [string]: a sequence of code points below 256.
      [lower], [str_count] and [str_in] are Python's [str.lower], [str.count]
      and the substring test [in] on such strings.
    - A Python [int] is a [Z]; edge weights are the integers the program
      stores.
    - [WeightedGraph._vertices] is a finite map from item to vertex.  A vertex
      holds its neighbours in a dictionary keyed by vertex objects; the graph
      keeps exactly one vertex object per item, so the model keys that
      dictionary by the neighbour's item.
    - Methods that mutate [self] or raise are computations of the monad [M]:
      they take the graph and give back an outcome with the graph as the call
      left it. *)

From Stdlib Require Import ZArith Ascii String List Lia Bool.
From stdpp Require Import base option list sorting gmap strings fin_maps pretty.

Local Open Scope string_scope.
Local Open Scope Z_scope.
Local Open Scope list_scope.

(** ** Strings *)

Module Str.

(** [str.lower] on one code point below 256: the capital letters of ASCII and
    of Latin-1 move up by 32, everything else stays. *)
Definition is_upper (n : N) : bool :=
  ((65 <=? n) && (n <=? 90) || (192 <=? n) && (n <=? 214)
   || (216 <=? n) && (n <=? 222))%N.

Definition lower_char (c : ascii) : ascii :=
  let n := N_of_ascii c in
  if is_upper n then ascii_of_N (n + 32) else c.

Fixpoint lower (s : string) : string :=
  match s with
  | EmptyString => EmptyString
  | String c s' => String (lower_char c) (lower s')
  end.

(** [s.startswith(p)]. *)
Fixpoint starts_with (p s : string) : bool :=
  match p, s with
  | EmptyString, _ => true
  | String a p', String b s' => if Ascii.eqb a b then starts_with p' s' else false
  | String _ _, EmptyString => false
  end.

(** The scan of [str.count] for a non-empty [sub]: [skip] counts the
    characters still covered by the occurrence found last, which the scan
    passes over, so that occurrences do not overlap. *)
Fixpoint count_scan (sub s : string) (skip : nat) : nat :=
  match s with
  | EmptyString => 0%nat
  | String _ s' =>
      match skip with
      | S k => count_scan sub s' k
      | O => if starts_with sub s
             then S (count_scan sub s' (String.length sub - 1))
             else count_scan sub s' 0
      end
  end.

(** [s.count(sub)]: the number of non-overlapping occurrences of [sub] in
    [s], found from left to right; the empty string occurs between any two
    characters and at both ends. *)
Definition str_count (s sub : string) : Z :=
  match sub with
  | EmptyString => Z.of_nat (String.length s) + 1
  | _ => Z.of_nat (count_scan sub s 0)
  end.

(** [sub in s]. *)
Fixpoint str_in (sub s : string) : bool :=
  starts_with sub s ||
  match s with
  | EmptyString => false
  | String _ s' => str_in sub s'
  end.

(** [s1 < s2] on [str]: lexicographic on code points. *)
Definition str_lt (s1 s2 : string) : bool := String.ltb s1 s2.

End Str.
Export Str.

Example lower_ex : lower "Looking for Python dev" = "looking for python dev".
Proof. reflexivity. Qed.

Example count_ex1 : str_count "looking for a python python developer" "python" = 2.
Proof. reflexivity. Qed.

Example count_ex2 : str_count "aaa" "aa" = 1 /\ str_count "abc" "" = 4 /\ str_count "" "a" = 0.
Proof. repeat split; reflexivity. Qed.

Example in_ex : str_in "[Low Match]" "Dev at Acme [Low Match]" = true
                /\ str_in "[Low Match]" "Dev at Acme" = false.
Proof. split; reflexivity. Qed.

(** ** Outcomes and the graph monad *)

(** The two exceptions the core can raise: [KeyError] from a dictionary
    subscript, [ValueError] from [add_edge]. *)
Inductive exn : Set := KeyError | ValueError.

Inductive outcome (A : Type) : Type :=
| Ok (a : A)
| Raise (e : exn).
Arguments Ok {A} a.
Arguments Raise {A} e.

(** [_WeightedVertex].  [neighbours] maps a neighbour, named by the item under
    which the graph stores it, to the weight of the edge. *)
Record WeightedVertex : Type := mkVertex {
  item : string;
  kind : string;
  neighbours : gmap string Z
}.

(** [WeightedGraph._vertices]. *)
Abbreviation WeightedGraph := (gmap string WeightedVertex).

(** A method of the graph: from the graph before the call to the outcome and
    the graph after it.  A raised exception leaves the graph as it was when
    it was raised. *)
Definition M (A : Type) : Type := WeightedGraph -> outcome A * WeightedGraph.

Definition ret {A} (a : A) : M A := fun g => (Ok a, g).
Definition raise {A} (e : exn) : M A := fun g => (Raise e, g).
Definition bind {A B} (m : M A) (k : A -> M B) : M B :=
  fun g => match m g with
           | (Ok a, g') => k a g'
           | (Raise e, g') => (Raise e, g')
           end.
Definition get_graph : M WeightedGraph := fun g => (Ok g, g).

Notation "'let*' x ':=' m 'in' k" := (bind m (fun x => k))
  (at level 10, x name, m at level 100, k at level 200).
Notation "m ;;; k" := (bind m (fun _ => k))
  (at level 100, k at level 200, right associativity).

(** [for x in l: acc = body(x, acc)], with the loop's local variable threaded
    through the iterations. *)
Fixpoint for_in {A S} (l : list A) (body : A -> S -> M S) (acc : S) : M S :=
  match l with
  | [] => ret acc
  | x :: rest => let* acc' := body x acc in for_in rest body acc'
  end.

(** ** WeightedGraph *)

Definition set_neighbour (v : WeightedVertex) (nb : string) (weight : Z) : WeightedVertex :=
  mkVertex (item v) (kind v) (<[nb := weight]> (neighbours v)).

(** [WeightedGraph.add_vertex]. *)
Definition add_vertex (it : string) (k : string) : M unit :=
  fun g => match g !! it with
           | Some _ => (Ok tt, g)
           | None => (Ok tt, <[it := mkVertex it k ∅]> g)
           end.

(** The two assignments of [add_edge], in order.  The second reads the vertex
    of [item2] after the first has been made: when [item1 = item2] both name
    one vertex object. *)
Definition link (item1 item2 : string) (weight : Z) (g : WeightedGraph) : WeightedGraph :=
  let g1 := alter (fun v1 => set_neighbour v1 item2 weight) item1 g in
  alter (fun v2 => set_neighbour v2 item1 weight) item2 g1.

(** [WeightedGraph.add_edge]. *)
Definition add_edge (item1 item2 : string) (weight : Z) : M unit :=
  fun g => match g !! item1, g !! item2 with
           | Some _, Some _ => (Ok tt, link item1 item2 weight g)
           | _, _ => (Raise ValueError, g)
           end.

(** [WeightedGraph.get_weight]: the two subscripts raise [KeyError] on an
    unknown item; [dict.get(v2, 0)] does not. *)
Definition get_weight (item1 item2 : string) : M Z :=
  fun g => match g !! item1 with
           | None => (Raise KeyError, g)
           | Some v1 =>
               match g !! item2 with
               | None => (Raise KeyError, g)
               | Some _ => (Ok (default 0 (neighbours v1 !! item2)), g)
               end
           end.

(** [WeightedGraph.get_all_vertices]: a set, so without order. *)
Definition get_all_vertices (k : string) (g : WeightedGraph) : gset string :=
  if decide (k = "") then dom g
  else list_to_set (item <$> filter (fun v => kind v = k) (map_to_list g).*2).

(** [WeightedGraph.has_vertex_helper]. *)
Definition has_vertex_helper (it : string) (g : WeightedGraph) : bool :=
  bool_decide (is_Some (g !! it)).

(** ** build_graph *)

(** A posting record: a dictionary from field name to text. *)
Abbreviation posting := (gmap string string).

(** [job[key]]. *)
Definition subscript (job : posting) (key : string) : M string :=
  match job !! key with
  | Some v => ret v
  | None => raise KeyError
  end.

(** [job.get(key, "")]. *)
Definition get_or_empty (job : posting) (key : string) : string :=
  default "" (job !! key).

Definition low_match_suffix : string := " [Low Match]".

(** The body of the inner loop over [skills]; [match_score] is the
    accumulator. *)
Definition match_skill (content job_id : string) (skill : string) (match_score : Z) : M Z :=
  let count := str_count content (lower skill) in
  if 0 <? count
  then add_edge (lower skill) job_id count ;;; ret (match_score + count)
  else ret match_score.

(** The body of the loop over [jobs]. *)
Definition add_job (skills : list string) (job : posting) (_ : unit) : M unit :=
  let* role := subscript job "role" in
  let* company_name := subscript job "company_name" in
  let job_id := (role ++ " at " ++ company_name)%string in
  add_vertex job_id "job" ;;;
  let content := lower (get_or_empty job "text" ++ " " ++ get_or_empty job "description")%string in
  let* match_score := for_in skills (match_skill content job_id) 0 in
  match skills with
  | skill0 :: _ =>
      if match_score =? 0 then
        let fallback_job_id := (job_id ++ low_match_suffix)%string in
        add_vertex fallback_job_id "job" ;;;
        add_edge (lower skill0) fallback_job_id 1
      else ret tt
  | [] => ret tt
  end.

Definition build_graph_body (skills : list string) (jobs : list posting) : M unit :=
  for_in skills (fun skill _ => add_vertex (lower skill) "skill") tt ;;;
  for_in jobs (add_job skills) tt.

(** [build_graph]: the body run on a fresh graph, which is returned. *)
Definition build_graph (skills : list string) (jobs : list posting) : outcome WeightedGraph :=
  match build_graph_body skills jobs ∅ with
  | (Ok _, g) => Ok g
  | (Raise e, _) => Raise e
  end.

(** ** recommend_jobs *)

(** The order in which a [for] loop visits a set.  Python fixes none, so the
    development holds for every such order: each element once. *)
Record SetIter : Type := mkSetIter {
  iter : gset string -> list string;
  iter_perm : forall X, iter X ≡ₚ elements X
}.

Definition marker : string := "[Low Match]".

(** The sort key [("[Low Match]" in x[0], -x[1], x[0])] and Python's [<] on
    such tuples: the first components that differ decide. *)
Definition sort_key (x : string * Z) : bool * Z * string :=
  (str_in marker x.1, - x.2, x.1).

Definition key_lt (k1 k2 : bool * Z * string) : bool :=
  match k1, k2 with
  | (b1, n1, s1), (b2, n2, s2) =>
      if negb (Bool.eqb b1 b2) then negb b1 && b2
      else if negb (n1 =? n2) then n1 <? n2
      else str_lt s1 s2
  end.

(** [list.sort(key=...)] is stable and compares keys with [<] only.  The
    stable sorted arrangement of a list is unique; insertion from the right
    computes it. *)
Fixpoint sort_insert (x : string * Z) (l : list (string * Z)) : list (string * Z) :=
  match l with
  | [] => [x]
  | y :: l' =>
      if key_lt (sort_key y) (sort_key x) then y :: sort_insert x l'
      else x :: y :: l'
  end.

Fixpoint sort_scores (l : list (string * Z)) : list (string * Z) :=
  match l with
  | [] => []
  | x :: l' => sort_insert x (sort_scores l')
  end.

(** [sum(graph.get_weight(skill, job) for skill in skills
         if graph.has_vertex_helper(skill))]. *)
Fixpoint total_weight (skills : list string) (job : string) : M Z :=
  match skills with
  | [] => ret 0
  | skill :: rest =>
      let* g := get_graph in
      if has_vertex_helper skill g then
        let* w := get_weight skill job in
        let* t := total_weight rest job in
        ret (w + t)
      else total_weight rest job
  end.

(** The body of the first loop over [jobs]. *)
Definition score_job (skills : list string) (job : string) (scores : list (string * Z))
  : M (list (string * Z)) :=
  let* tw := total_weight skills job in
  if 0 <? tw then ret (scores ++ [(job, tw)]) else ret scores.

(** The second loop over [jobs], with its [break]. *)
Fixpoint backfill (jobs : list string) (added : gset string) (limit : Z)
    (scores : list (string * Z)) : list (string * Z) :=
  match jobs with
  | [] => scores
  | job :: rest =>
      let scores' := if decide (job ∈ added) then scores else scores ++ [(job, 1)] in
      if Z.of_nat (length scores') =? limit then scores'
      else backfill rest added limit scores'
  end.

(** [l[:n]] for an integer [n], negative ones counting from the end. *)
Definition slice_to {A} (l : list A) (n : Z) : list A :=
  if 0 <=? n then take (Z.to_nat n) l
  else take (Z.to_nat (Z.of_nat (length l) + n)) l.

(** [recommend_jobs]. *)
Definition recommend_jobs (I : SetIter) (skills : list string) (limit : Z)
  : M (list (string * Z)) :=
  let* g := get_graph in
  let jobs := iter I (get_all_vertices "job" g) in
  let* scores := for_in jobs (score_job skills) [] in
  let scores := sort_scores scores in
  let scores :=
    if Z.of_nat (length scores) <? limit
    then backfill jobs (list_to_set scores.*1) limit scores
    else scores in
  ret (slice_to scores limit).

(** [build_graph] followed by [recommend_jobs], as [run_job_search] chains
    them on the postings it fetched. *)
Definition run_search (I : SetIter) (skills : list string) (jobs : list posting) (limit : Z)
  : outcome (list (string * Z)) :=
  match build_graph skills jobs with
  | Ok g => (recommend_jobs I skills limit g).1
  | Raise e => Raise e
  end.

(** ** The console front end of [JobrecBackend.py] *)

(** [str.isspace] on one code point below 256, and [str.strip()]. *)
Definition is_space (c : ascii) : bool :=
  let n := N_of_ascii c in
  ((9 <=? n) && (n <=? 13) || (28 <=? n) && (n <=? 32) || (n =? 133) || (n =? 160))%N.

Fixpoint lstrip (s : string) : string :=
  match s with
  | EmptyString => EmptyString
  | String c s' => if is_space c then lstrip s' else s
  end.

Fixpoint rstrip (s : string) : string :=
  match s with
  | EmptyString => EmptyString
  | String c s' =>
      match rstrip s' with
      | EmptyString => if is_space c then EmptyString else String c EmptyString
      | r => String c r
      end
  end.

Definition strip (s : string) : string := rstrip (lstrip s).

(** The truth value of a [str]: false for the empty one. *)
Definition nonempty (s : string) : bool :=
  match s with
  | EmptyString => false
  | String _ _ => true
  end.

(** [sep.join(l)]. *)
Fixpoint join (sep : string) (l : list string) : string :=
  match l with
  | [] => ""
  | [s] => s
  | s :: rest => (s ++ sep ++ join sep rest)%string
  end.

(** The console: the lines [input] has still to read, and what was written,
    one entry for each [print] (its line) and each [input] (its prompt). *)
Record console : Type := mkConsole {
  stdin : list string;
  stdout : list string
}.

(** The loop of [prompt_skills], [lines] being the lines still to read and
    [out] what was written.  [input] raises [EOFError] when no line is left:
    the result is then [None]. *)
Fixpoint prompt_loop (lines out : list string) (skills : list string)
  : option (list string) * console :=
  if (length skills <? 5)%nat then
    let out' := out ++ ["Skill " +:+ pretty (length skills + 1)%nat +:+ ": "] in
    match lines with
    | [] => (None, mkConsole [] out')
    | line :: rest =>
        let skill := strip line in
        if nonempty skill then prompt_loop rest out' (skills ++ [skill])
        else (Some skills, mkConsole rest out')
    end
  else (Some skills, mkConsole lines out).

(** [prompt_skills]. *)
Definition prompt_skills (c : console) : option (list string) * console :=
  prompt_loop (stdin c) (stdout c ++ ["Enter up to 5 skills you have:"]) [].

(** The answer of the job-search service to [requests.get]: its status code
    and the ["results"] of its JSON body, if the body has any. *)
Record response : Type := mkResponse {
  status_code : Z;
  results : option (list posting)
}.

(** [fetch_jobs], with the service as a function of the search parameters;
    the second component is what it prints. *)
Definition fetch_jobs (http_get : string -> string -> Z -> response)
    (query api_key : string) (limit : Z) : list posting * list string :=
  let response := http_get query api_key limit in
  if status_code response =? 200 then (default [] (results response), [])
  else ([], ["Error fetching jobs: " +:+ pretty (status_code response)]).

(** [run_job_search], with what it prints. *)
Definition run_job_search (http_get : string -> string -> Z -> response) (I : SetIter)
    (user_skills : list string) (api_key : string)
  : outcome (list (string * Z)) * list string :=
  let out := [String "010" "Fetching jobs based on your skills..."] in
  let (jobs, printed) := fetch_jobs http_get (join " " user_skills) api_key 20 in
  (run_search I user_skills jobs 5, out ++ printed).

(** The match level [display_top_jobs] prints for an entry. *)
Definition match_label (job : string) (score : Z) : string :=
  if str_in marker job then "Low Match"
  else if 6 <=? score then "High Match"
  else if 3 <=? score then "Medium Match"
  else "Low Match".

(** [display_top_jobs]: the lines it prints. *)
Definition display_top_jobs (top_jobs : list (string * Z)) : list string :=
  String "010" "Top Recommended Jobs:" ::
  match top_jobs with
  | [] => ["Sorry, no jobs found at this time. Try again with different or more general skills."]
  | _ => imap (fun i x => pretty (i + 1)%nat +:+ ". " +:+ x.1 +:+ " ("
                          +:+ match_label x.1 x.2 +:+ ")") top_jobs
  end.

(** ** The window front end of [JobRecFrontend.py] *)

(** The skills [perform_search] reads from the entry fields. *)
Definition collect_skills (entries : list string) : list string :=
  omap (fun entry => if nonempty (strip entry) then Some (strip entry) else None) entries.

(** What [perform_search] ends in: one of its two error boxes, the results
    window, or an exception. *)
Inductive search_end : Type :=
| NoSkill
| NoApiKey
| Results (jobs_raw : list posting) (top_jobs : list (string * Z))
| Raised (e : exn).

(** [perform_search]; [api_key] is what [load_api_key] returns. *)
Definition perform_search (http_get : string -> string -> Z -> response) (I : SetIter)
    (entries : list string) (api_key : option string) : search_end :=
  let skills := collect_skills entries in
  match skills with
  | [] => NoSkill
  | _ :: _ =>
      match api_key with
      | None => NoApiKey
      | Some key =>
          if nonempty key then
            let jobs_raw := (fetch_jobs http_get (join " " skills) key 20).1 in
            match run_search I skills jobs_raw 5 with
            | Ok top_jobs => Results jobs_raw top_jobs
            | Raise e => Raised e
            end
          else NoApiKey
      end
  end.

(** The posting [show_results_window] takes the details of [job] from: the
    first one whose label occurs in [job], the empty record if there is
    none. *)
Fixpoint job_details (jobs_raw : list posting) (job : string) : outcome posting :=
  match jobs_raw with
  | [] => Ok ∅
  | j :: rest =>
      match j !! "role", j !! "company_name" with
      | Some role, Some company_name =>
          if str_in (role ++ " at " ++ company_name)%string job then Ok j
          else job_details rest job
      | _, _ => Raise KeyError
      end
  end.

(** The match level [show_results_window] shows for an entry. *)
Definition match_level (job : string) (score : Z) : string :=
  if str_in marker job then "Low"
  else if 6 <=? score then "High"
  else if 3 <=? score then "Medium"
  else "Low".

(** * Definitions for the proofs *)

(** The functions and predicates below are not part of the program: they
    name what its methods leave behind and what its loops maintain. *)

(** ** Graphs *)

(** The graph [add_vertex] leaves behind. *)
Definition add_vertex_st (it k : string) (g : WeightedGraph) : WeightedGraph :=
  match g !! it with
  | Some _ => g
  | None => <[it := mkVertex it k ∅]> g
  end.

(** Each vertex is stored under its own item. *)
Definition keyed (g : WeightedGraph) : Prop := forall k v, g !! k = Some v -> item v = k.

(** Edges are mirrored: both ends record the same weight, or none. *)
Definition mirrored (g : WeightedGraph) : Prop :=
  forall a b va vb, g !! a = Some va -> g !! b = Some vb ->
                    neighbours va !! b = neighbours vb !! a.

(** Only vertices of the graph are neighbours. *)
Definition closed (g : WeightedGraph) : Prop :=
  forall a va b, g !! a = Some va -> is_Some (neighbours va !! b) -> is_Some (g !! b).

Definition sound (g : WeightedGraph) : Prop := keyed g /\ closed g /\ mirrored g.

(** A call of one of the two mutating methods. *)
Inductive call : Type :=
| AddVertex (it k : string)
| AddEdge (item1 item2 : string) (weight : Z).

Definition do_call (c : call) : M unit :=
  match c with
  | AddVertex it k => add_vertex it k
  | AddEdge item1 item2 weight => add_edge item1 item2 weight
  end.

(** The graph after a sequence of calls on [g]; a call that raises leaves the
    graph to the next one as it was. *)
Definition run_calls (cs : list call) (g : WeightedGraph) : WeightedGraph :=
  foldl (fun g c => (do_call c g).2) g cs.

(** ** build_graph, step by step *)

(** A posting that carries [role] and [company_name]. *)
Definition well_formed (job : posting) : Prop :=
  is_Some (job !! "role") /\ is_Some (job !! "company_name").

(** The label [f"{job['role']} at {job['company_name']}"] of such a posting,
    and its lower-cased text. *)
Definition job_id_of (job : posting) : string :=
  (default "" (job !! "role") ++ " at " ++ default "" (job !! "company_name"))%string.

Definition content_of (job : posting) : string :=
  lower (get_or_empty job "text" ++ " " ++ get_or_empty job "description")%string.

(** One iteration of the loop over the skills: its effect on the graph, and
    on [match_score]. *)
Definition match_step (content job_id : string) (g : WeightedGraph) (skill : string)
  : WeightedGraph :=
  let count := str_count content (lower skill) in
  if 0 <? count then link (lower skill) job_id count g else g.

Definition match_total (content : string) (skills : list string) (acc : Z) : Z :=
  foldl (fun t skill => let count := str_count content (lower skill) in
                        if 0 <? count then t + count else t) acc skills.

(** The graph one iteration of the loop over the postings leaves behind. *)
Definition add_job_st (skills : list string) (g : WeightedGraph) (job : posting)
  : WeightedGraph :=
  let job_id := job_id_of job in
  let g2 := foldl (match_step (content_of job) job_id) (add_vertex_st job_id "job" g) skills in
  match skills with
  | skill0 :: _ =>
      if match_total (content_of job) skills 0 =? 0 then
        let fallback_job_id := (job_id ++ low_match_suffix)%string in
        link (lower skill0) fallback_job_id 1 (add_vertex_st fallback_job_id "job" g2)
      else g2
  | [] => g2
  end.

(** The graph after the loop over the skills, and after both loops. *)
Definition skills_st (skills : list string) (g : WeightedGraph) : WeightedGraph :=
  foldl (fun g skill => add_vertex_st (lower skill) "skill" g) g skills.

Definition build_st (skills : list string) (jobs : list posting) : WeightedGraph :=
  foldl (add_job_st skills) (skills_st skills ∅) jobs.

(** The lower-cased skills are vertices. *)
Definition has_skills (skills : list string) (g : WeightedGraph) : Prop :=
  forall s, s ∈ skills -> is_Some (g !! lower s).

(** What [build_graph] maintains: vertices stored under their item, the
    lower-cased skills present, a vertex of kind "skill" exactly under a
    lower-cased skill, and every edge with a lower-cased skill at one end. *)
Record built (skills : list string) (g : WeightedGraph) : Prop := mkBuilt {
  built_keyed : keyed g;
  built_skills : has_skills skills g;
  built_kind : forall k v, g !! k = Some v ->
     kind v = if decide (k ∈ lower <$> skills) then "skill" else "job";
  built_edges : forall k v n, g !! k = Some v -> is_Some (neighbours v !! n) ->
     k ∈ lower <$> skills \/ n ∈ lower <$> skills
}.

(** The labels under which one posting adds vertices: its own, and the
    fallback label when it matched no skill of a non-empty skill list. *)
Definition job_labels (skills : list string) (job : posting) : list string :=
  job_id_of job ::
  match skills with
  | _ :: _ => if match_total (content_of job) skills 0 =? 0
              then [(job_id_of job ++ low_match_suffix)%string] else []
  | [] => []
  end.

(** Every neighbour recorded in the graph is in [T]. *)
Definition targets_in (T : gset string) (g : WeightedGraph) : Prop :=
  forall k v n, g !! k = Some v -> is_Some (neighbours v !! n) -> n ∈ T.

(** ** recommend_jobs, step by step *)

(** [x] does not come after [y] in the sorted list. *)
Definition entry_le (x y : string * Z) : Prop := key_lt (sort_key y) (sort_key x) = false.

(** The weight [get_weight] reads, and the sum [total_weight] forms, when
    nothing raises. *)
Definition weight_of (item1 item2 : string) (g : WeightedGraph) : Z :=
  default 0 (g !! item1 ≫= fun v1 => neighbours v1 !! item2).

Definition tw_of (skills : list string) (job : string) (g : WeightedGraph) : Z :=
  foldr (fun skill t => if has_vertex_helper skill g then weight_of skill job g + t else t)
    0 skills.

(** The entries of the first loop, in the order of the iteration. *)
Definition kept (skills : list string) (g : WeightedGraph) (jobs : list string)
  : list (string * Z) :=
  omap (fun job => if 0 <? tw_of skills job g
                   then Some (job, tw_of skills job g) else None) jobs.

(** The sorted entries, followed by every other job with score 1. *)
Definition ranking (skills : list string) (g : WeightedGraph) (jobs : list string)
  : list (string * Z) :=
  sort_scores (kept skills g jobs)
  ++ ((fun job => (job, 1)) <$> filter (fun job => job ∉ (kept skills g jobs).*1) jobs).

(** How many entries of [ranking] the slice keeps. *)
Definition cut (limit : Z) (n_sorted : nat) : nat :=
  if 0 <=? limit then Z.to_nat limit else Z.to_nat (Z.of_nat n_sorted + limit).

(** ** Sample inputs *)

(** The iteration order that lists a set as [elements] does. *)
Definition iter_elements : SetIter := mkSetIter elements (fun X => reflexivity _).

Definition job_of (role company description : string) : posting :=
  <["description" := description]> (<["company_name" := company]> (<["role" := role]> ∅)).

Definition bare_job (role company : string) : posting :=
  <["company_name" := company]> (<["role" := role]> ∅).

Definition job_a : posting := job_of "A" "X" "python".
Definition job_b : posting := job_of "B" "X" "Python pYthon".
Definition job_c : posting := job_of "C" "X" "none".
Definition jobs_ex : list posting := [job_a; job_b; job_c].

Definition java_job : posting := job_of "Dev" "Acme" "no relevant keywords here".

Definition calls_ex : list call :=
  [AddVertex "python" "skill"; AddVertex "Job A" "job"; AddEdge "python" "Job A" 3;
   AddEdge "python" "Job B" 7; AddVertex "Job A" "skill"; AddEdge "Job A" "python" 2].

(** ** More on sequences of calls *)

(** The kind given by the first [add_vertex] of [x] among the calls. *)
Definition first_kind (cs : list call) (x : string) : option string :=
  head (omap (fun c => match c with
                      | AddVertex it k => if decide (it = x) then Some k else None
                      | AddEdge _ _ _ => None
                      end) cs).

(** Every recorded weight is at least 1. *)
Definition weights_pos (g : WeightedGraph) : Prop :=
  forall k v n w, g !! k = Some v -> neighbours v !! n = Some w -> 1 <= w.

(** There is an edge from [a] to [b]. *)
Definition edge_from (a b : string) (g : WeightedGraph) : Prop :=
  exists v, g !! a = Some v /\ is_Some (neighbours v !! b).

(** The posting with its [text] and [description], where present, in lower
    case. *)
Definition lower_text (job : posting) : posting :=
  alter lower "text" (alter lower "description" job).

(** * Properties *)

(** ** The graph methods *)

Section Graph.

Implicit Types (g : WeightedGraph) (v : WeightedVertex).

Lemma add_vertex_run it k g : add_vertex it k g = (Ok tt, add_vertex_st it k g).
Proof. unfold add_vertex, add_vertex_st. by destruct (g !! it). Qed.

Lemma add_edge_run item1 item2 weight g :
  is_Some (g !! item1) -> is_Some (g !! item2) ->
  add_edge item1 item2 weight g = (Ok tt, link item1 item2 weight g).
Proof. intros [v1 H1] [v2 H2]. unfold add_edge. by rewrite H1, H2. Qed.

Lemma lookup_link item1 item2 weight g k :
  link item1 item2 weight g !! k =
  (fun v => let v' := if decide (item1 = k) then set_neighbour v item2 weight else v in
            if decide (item2 = k) then set_neighbour v' item1 weight else v') <$> g !! k.
Proof.
  unfold link. rewrite lookup_alter.
  destruct (decide (item2 = k)) as [->|]; rewrite lookup_alter;
    destruct (decide (item1 = k)) as [->|]; by destruct (g !! k).
Qed.

Lemma link_is_Some item1 item2 weight g k :
  is_Some (link item1 item2 weight g !! k) <-> is_Some (g !! k).
Proof. rewrite lookup_link. apply fmap_is_Some. Qed.

Lemma add_vertex_st_is_Some it k g x :
  is_Some (add_vertex_st it k g !! x) <-> x = it \/ is_Some (g !! x).
Proof.
  unfold add_vertex_st. destruct (g !! it) eqn:E.
  - split; [tauto|]. intros [->|]; [by rewrite E | done].
  - rewrite lookup_insert_is_Some'. split; intros [?|?]; auto.
Qed.

Lemma add_vertex_st_keyed it k g : keyed g -> keyed (add_vertex_st it k g).
Proof.
  unfold add_vertex_st. intros Hg. destruct (g !! it) eqn:E; [done|].
  intros x v. rewrite lookup_insert. case_decide; [|by apply Hg].
  intros [= <-]; by subst.
Qed.

Lemma link_keyed item1 item2 weight g : keyed g -> keyed (link item1 item2 weight g).
Proof.
  intros Hg k v. rewrite lookup_link. destruct (g !! k) as [v0|] eqn:E; [|done].
  simpl. intros [= <-]. apply Hg in E. by repeat case_decide.
Qed.

Lemma add_vertex_st_closed it k g : closed g -> closed (add_vertex_st it k g).
Proof.
  unfold add_vertex_st. intros Hg. destruct (g !! it) eqn:E; [done|].
  intros a va b. rewrite lookup_insert. case_decide as Ha.
  - intros [= <-]; simpl. rewrite lookup_empty. by intros [? ?].
  - intros Hva Hb. rewrite lookup_insert_is_Some'. right. eauto.
Qed.

Lemma add_vertex_st_mirrored it k g :
  closed g -> mirrored g -> mirrored (add_vertex_st it k g).
Proof.
  unfold add_vertex_st. intros Hc Hg. destruct (g !! it) eqn:E; [done|].
  assert (Hfresh : forall a va, g !! a = Some va -> neighbours va !! it = None).
  { intros a va Ha. destruct (neighbours va !! it) eqn:En; [|done].
    destruct (Hc a va it Ha) as [? ?]; [by eauto | congruence]. }
  intros a b va vb. rewrite !lookup_insert.
  repeat case_decide; subst; intros Ha Hb; simplify_eq; simpl;
    rewrite ?lookup_empty; eauto using eq_sym.
Qed.

Lemma link_closed item1 item2 weight g :
  is_Some (g !! item1) -> is_Some (g !! item2) ->
  closed g -> closed (link item1 item2 weight g).
Proof.
  intros H1 H2 Hg a va b. rewrite lookup_link, link_is_Some.
  destruct (g !! a) as [v0|] eqn:E; [|done]. simpl. intros [= <-].
  repeat case_decide; simpl; rewrite ?lookup_insert_is_Some';
    intros; destruct_or?; destruct_and?; subst; eauto.
Qed.

Lemma link_mirrored item1 item2 weight g :
  mirrored g -> mirrored (link item1 item2 weight g).
Proof.
  intros Hg a b va vb. rewrite !lookup_link.
  destruct (g !! a) as [va0|] eqn:Ea; [|done].
  destruct (g !! b) as [vb0|] eqn:Eb; [|done].
  simpl. intros [= <-] [= <-]. pose proof (Hg a b va0 vb0 Ea Eb).
  repeat case_decide; subst; simpl; simplify_map_eq; done.
Qed.

End Graph.

(** *** Sequences of calls *)

Section Calls.

Implicit Types (g : WeightedGraph) (cs : list call).

Lemma sound_empty : sound ∅.
Proof. repeat split; intros ?; intros; simplify_map_eq. Qed.

Lemma do_call_sound c g : sound g -> sound (do_call c g).2.
Proof.
  intros (Hk & Hc & Hm). destruct c as [it k|item1 item2 weight]; simpl.
  - rewrite add_vertex_run. simpl.
    split; [|split];
      eauto using add_vertex_st_keyed, add_vertex_st_closed, add_vertex_st_mirrored.
  - unfold add_edge.
    destruct (g !! item1) eqn:E1; [destruct (g !! item2) eqn:E2|]; simpl;
      try done.
    split; [|split]; eauto using link_keyed, link_closed, link_mirrored.
Qed.

Lemma run_calls_sound cs g : sound g -> sound (run_calls cs g).
Proof.
  revert g. induction cs as [|c cs IH]; intros g Hg; [done|].
  simpl. apply IH, do_call_sound, Hg.
Qed.

Lemma get_weight_run g a b va :
  g !! a = Some va -> is_Some (g !! b) ->
  get_weight a b g = (Ok (default 0 (neighbours va !! b)), g).
Proof. intros Ha [vb Hb]. unfold get_weight. by rewrite Ha, Hb. Qed.

End Calls.

(** C7.  In a graph reached from the empty one by any sequence of
    [add_vertex] and [add_edge] calls, [get_weight a b] and [get_weight b a]
    return the same weight for any two vertices [a] and [b] of the graph. *)
Theorem get_weight_symmetric (cs : list call) (a b : string) :
  let g := run_calls cs ∅ in
  is_Some (g !! a) -> is_Some (g !! b) ->
  exists w, get_weight a b g = (Ok w, g) /\ get_weight b a g = (Ok w, g).
Proof.
  intros g [va Ha] [vb Hb].
  destruct (run_calls_sound cs ∅ sound_empty) as (_ & _ & Hm). fold g in Hm.
  exists (default 0 (neighbours va !! b)). split.
  - by apply get_weight_run.
  - rewrite (Hm a b va vb Ha Hb). by apply get_weight_run.
Qed.

Lemma get_weight_symmetric_witness :
  exists w, get_weight "python" "Job A" (run_calls calls_ex ∅) = (Ok w, run_calls calls_ex ∅)
            /\ get_weight "Job A" "python" (run_calls calls_ex ∅) = (Ok w, run_calls calls_ex ∅).
Proof.
  apply (get_weight_symmetric calls_ex "python" "Job A"); vm_compute; eauto.
Defined.

(** C8.  When [item1] or [item2] is not a vertex of the graph, [add_edge]
    raises [ValueError] and leaves the graph as it was: no vertex is created
    and no edge is changed. *)
Theorem add_edge_unknown_vertex (g : WeightedGraph) (item1 item2 : string) (weight : Z) :
  g !! item1 = None \/ g !! item2 = None ->
  add_edge item1 item2 weight g = (Raise ValueError, g).
Proof.
  unfold add_edge. intros [H|H]; rewrite H; [done|]. by destruct (g !! item1).
Qed.

Lemma add_edge_unknown_vertex_witness :
  add_edge "python" "Job B" 7 (run_calls [AddVertex "python" "skill"] ∅)
  = (Raise ValueError, run_calls [AddVertex "python" "skill"] ∅).
Proof.
  apply (add_edge_unknown_vertex (run_calls [AddVertex "python" "skill"] ∅) "python" "Job B" 7).
  right. vm_compute. reflexivity.
Defined.

(** C9.  [add_vertex] on an item that is already a vertex returns without
    changing the graph: the same vertices, the same edges and weights, and
    the vertex keeps the kind it had. *)
Theorem add_vertex_idempotent (g : WeightedGraph) (it k : string) :
  is_Some (g !! it) ->
  add_vertex it k g = (Ok tt, g) /\ size (add_vertex it k g).2 = size g.
Proof.
  intros [v Hv]. unfold add_vertex. by rewrite Hv.
Qed.

Lemma add_vertex_idempotent_witness :
  let g := run_calls [AddVertex "python" "skill"; AddVertex "Job A" "job";
                      AddEdge "python" "Job A" 3] ∅ in
  add_vertex "Job A" "skill" g = (Ok tt, g) /\ size (add_vertex "Job A" "skill" g).2 = size g.
Proof.
  apply (add_vertex_idempotent _ "Job A" "skill"). vm_compute. eauto.
Defined.

(** ** build_graph as a function *)

Section Build.

Implicit Types (g : WeightedGraph) (skills : list string) (jobs : list posting).

Lemma match_step_is_Some content job_id g skill x :
  is_Some (match_step content job_id g skill !! x) <-> is_Some (g !! x).
Proof. unfold match_step. case_match; [apply link_is_Some | done]. Qed.

Lemma foldl_match_step_is_Some content job_id skills g x :
  is_Some (foldl (match_step content job_id) g skills !! x) <-> is_Some (g !! x).
Proof.
  revert g. induction skills as [|s skills IH]; intros g; [done|].
  simpl. rewrite IH. apply match_step_is_Some.
Qed.

Lemma add_job_st_is_Some skills g job x :
  is_Some (g !! x) -> is_Some (add_job_st skills g job !! x).
Proof.
  intros Hx. unfold add_job_st.
  assert (is_Some (foldl (match_step (content_of job) (job_id_of job))
                     (add_vertex_st (job_id_of job) "job" g) skills !! x)) as H2.
  { apply foldl_match_step_is_Some, add_vertex_st_is_Some. by right. }
  destruct skills as [|s0 ?]; [done|]. case_match; [|done].
  apply link_is_Some, add_vertex_st_is_Some. by right.
Qed.

Lemma skills_st_is_Some skills g x :
  is_Some (skills_st skills g !! x) <-> x ∈ lower <$> skills \/ is_Some (g !! x).
Proof.
  unfold skills_st. revert g. induction skills as [|s skills IH]; intros g; simpl.
  - rewrite elem_of_nil. tauto.
  - rewrite IH, add_vertex_st_is_Some, elem_of_cons. tauto.
Qed.

Lemma for_in_add_skills skills g :
  for_in skills (fun skill _ => add_vertex (lower skill) "skill") tt g
  = (Ok tt, skills_st skills g).
Proof.
  revert g. induction skills as [|s skills IH]; intros g; [done|].
  simpl. unfold bind. rewrite add_vertex_run. apply IH.
Qed.

Lemma for_in_match_skill content job_id skills acc g :
  has_skills skills g -> is_Some (g !! job_id) ->
  for_in skills (match_skill content job_id) acc g
  = (Ok (match_total content skills acc), foldl (match_step content job_id) g skills).
Proof.
  revert acc g. induction skills as [|s skills IH]; intros acc g Hs Hj; [done|].
  simpl. unfold bind, match_skill, match_step at 2.
  assert (has_skills skills g) as Hs' by (intros x Hx; apply Hs; by right).
  destruct (0 <? str_count content (lower s)) eqn:E.
  - unfold bind. rewrite add_edge_run by (auto; apply Hs; by left). simpl.
    apply IH.
    + intros x Hx. by apply link_is_Some, Hs'.
    + by apply link_is_Some.
  - simpl. by apply IH.
Qed.

Lemma add_job_run skills job g :
  well_formed job -> has_skills skills g ->
  add_job skills job tt g = (Ok tt, add_job_st skills g job).
Proof.
  intros [[role Hr] [company Hc]] Hs. unfold add_job, add_job_st, job_id_of, subscript.
  rewrite Hr, Hc. simpl. unfold bind at 1. simpl. unfold bind at 1. simpl.
  unfold bind at 1. rewrite add_vertex_run. unfold bind at 1.
  fold (content_of job).
  rewrite for_in_match_skill.
  2:{ intros x Hx. apply add_vertex_st_is_Some. right. by apply Hs. }
  2:{ apply add_vertex_st_is_Some. by left. }
  destruct skills as [|s0 skills]; [done|].
  case_match; [|done].
  unfold bind. rewrite add_vertex_run. apply add_edge_run.
  - apply add_vertex_st_is_Some. right.
    apply foldl_match_step_is_Some, add_vertex_st_is_Some. right. apply Hs. by left.
  - apply add_vertex_st_is_Some. by left.
Qed.

Lemma add_job_raise skills job g :
  ~ well_formed job -> add_job skills job tt g = (Raise KeyError, g).
Proof.
  intros Hw. unfold add_job, subscript, bind.
  destruct (job !! "role") eqn:Hr; [|done]. simpl.
  destruct (job !! "company_name") eqn:Hc; [|done].
  destruct Hw. split; eauto.
Qed.

Lemma add_job_st_has_skills skills skills' g job :
  has_skills skills' g -> has_skills skills' (add_job_st skills g job).
Proof. intros Hs x Hx. by apply add_job_st_is_Some, Hs. Qed.

Lemma for_in_add_job skills jobs g :
  Forall well_formed jobs -> has_skills skills g ->
  for_in jobs (add_job skills) tt g = (Ok tt, foldl (add_job_st skills) g jobs).
Proof.
  intros Hw. revert g. induction Hw as [|job jobs Hj Hw IH]; intros g Hs; [done|].
  simpl. unfold bind. rewrite add_job_run by done.
  apply IH. by apply add_job_st_has_skills.
Qed.

Lemma skills_st_has_skills skills g : has_skills skills (skills_st skills g).
Proof. intros x Hx. apply skills_st_is_Some. left. by apply list_elem_of_fmap_2. Qed.

Lemma build_graph_run skills jobs :
  Forall well_formed jobs -> build_graph skills jobs = Ok (build_st skills jobs).
Proof.
  intros Hw. unfold build_graph, build_graph_body, bind.
  rewrite for_in_add_skills, for_in_add_job; auto using skills_st_has_skills.
Qed.

End Build.

(** C10.  [build_graph] returns a graph, and raises nothing, for every skill
    list and every list of posting records that each carry [role] and
    [company_name]; [text] and [description] may be absent and then count as
    empty text. *)
Theorem build_graph_never_raises (skills : list string) (jobs : list posting) :
  Forall well_formed jobs -> exists g, build_graph skills jobs = Ok g.
Proof. intros Hw. eexists. by apply build_graph_run. Qed.

Lemma build_graph_never_raises_witness :
  exists g, build_graph ["Python"; "java"]
              [bare_job "Dev" "Acme"; job_of "Ops" "Beta" "java and more java"] = Ok g.
Proof.
  apply (build_graph_never_raises ["Python"; "java"]
           [bare_job "Dev" "Acme"; job_of "Ops" "Beta" "java and more java"]).
  repeat constructor; vm_compute; eauto.
Defined.

(** ** The order of the sort keys *)

Section KeyOrder.

Lemma ascii_compare_refl (a : ascii) : Ascii.compare a a = Eq.
Proof. apply N.compare_refl. Qed.

Lemma ascii_compare_lt_trans (a b c : ascii) :
  Ascii.compare a b = Lt -> Ascii.compare b c = Lt -> Ascii.compare a c = Lt.
Proof. unfold Ascii.compare. rewrite !N.compare_lt_iff. lia. Qed.

Lemma str_compare_refl (s : string) : String.compare s s = Eq.
Proof. induction s as [|a s IH]; [done|]. simpl. by rewrite ascii_compare_refl. Qed.

Lemma str_compare_lt_trans (s1 s2 s3 : string) :
  String.compare s1 s2 = Lt -> String.compare s2 s3 = Lt -> String.compare s1 s3 = Lt.
Proof.
  revert s2 s3. induction s1 as [|a s1 IH]; intros [|b s2] [|c s3]; simpl; try done.
  destruct (Ascii.compare a b) eqn:Eab; try done;
    destruct (Ascii.compare b c) eqn:Ebc; try done; intros H1 H2.
  - apply Ascii.compare_eq_iff in Eab, Ebc. subst. rewrite ascii_compare_refl. eauto.
  - apply Ascii.compare_eq_iff in Eab. subst. by rewrite Ebc.
  - apply Ascii.compare_eq_iff in Ebc. subst. by rewrite Eab.
  - by rewrite (ascii_compare_lt_trans a b c).
Qed.

Lemma str_lt_irrefl (s : string) : str_lt s s = false.
Proof. unfold str_lt, String.ltb. by rewrite str_compare_refl. Qed.

Lemma str_lt_asym (s1 s2 : string) : str_lt s1 s2 = true -> str_lt s2 s1 = false.
Proof.
  unfold str_lt, String.ltb. rewrite (String.compare_antisym s2 s1).
  by destruct (String.compare s1 s2).
Qed.

Lemma str_lt_total (s1 s2 : string) :
  str_lt s1 s2 = false -> str_lt s2 s1 = false -> s1 = s2.
Proof.
  unfold str_lt, String.ltb. rewrite (String.compare_antisym s2 s1).
  destruct (String.compare s1 s2) eqn:E; simpl; try done.
  intros _ _. by apply String.compare_eq_iff.
Qed.

Lemma str_lt_trans (s1 s2 s3 : string) :
  str_lt s1 s2 = true -> str_lt s2 s3 = true -> str_lt s1 s3 = true.
Proof.
  unfold str_lt, String.ltb. intros H1 H2.
  rewrite (str_compare_lt_trans s1 s2 s3); [done| |].
  - by destruct (String.compare s1 s2).
  - by destruct (String.compare s2 s3).
Qed.

(** [key_lt] is a strict total order on keys. *)
Lemma key_lt_asym k1 k2 : key_lt k1 k2 = true -> key_lt k2 k1 = false.
Proof.
  destruct k1 as [[b1 n1] s1], k2 as [[b2 n2] s2]. simpl.
  destruct b1, b2; simpl; try done;
    (destruct (Z.eqb_spec n1 n2) as [->|Hn];
     [rewrite Z.eqb_refl; simpl; apply str_lt_asym
     |destruct (Z.eqb_spec n2 n1); [congruence|]; simpl; lia]).
Qed.

Lemma key_lt_total k1 k2 : key_lt k1 k2 = false -> key_lt k2 k1 = false -> k1 = k2.
Proof.
  destruct k1 as [[b1 n1] s1], k2 as [[b2 n2] s2]. simpl.
  destruct b1, b2; simpl; try done;
    (destruct (Z.eqb_spec n1 n2) as [->|Hn];
     [rewrite Z.eqb_refl; simpl; intros H1 H2; by rewrite (str_lt_total s1 s2)
     |destruct (Z.eqb_spec n2 n1); [congruence|]; simpl; lia]).
Qed.

Lemma key_lt_trans k1 k2 k3 :
  key_lt k1 k2 = true -> key_lt k2 k3 = true -> key_lt k1 k3 = true.
Proof.
  destruct k1 as [[b1 n1] s1], k2 as [[b2 n2] s2], k3 as [[b3 n3] s3]. simpl.
  destruct b1, b2, b3; simpl; try done;
    destruct (n1 =? n2) eqn:E12, (n2 =? n3) eqn:E23, (n1 =? n3) eqn:E13; simpl;
    rewrite ?Z.eqb_eq, ?Z.eqb_neq, ?Z.ltb_lt in *; try lia; apply str_lt_trans.
Qed.

Lemma key_lt_irrefl k : key_lt k k = false.
Proof. destruct (key_lt k k) eqn:E; [|done]. by rewrite (key_lt_asym k k E) in E. Qed.

Lemma entry_le_trans x y z : entry_le x y -> entry_le y z -> entry_le x z.
Proof.
  unfold entry_le. intros Hxy Hyz.
  destruct (key_lt (sort_key z) (sort_key x)) eqn:Hzx; [|done].
  destruct (key_lt (sort_key x) (sort_key y)) eqn:E1.
  - by rewrite (key_lt_trans _ _ _ Hzx E1) in Hyz.
  - pose proof (key_lt_total _ _ E1 Hxy) as Heq. rewrite Heq in Hzx. congruence.
Qed.

Lemma sort_insert_perm x l : sort_insert x l ≡ₚ x :: l.
Proof.
  induction l as [|y l IH]; [done|]. cbn [sort_insert]. case_match; [|done].
  rewrite IH. apply Permutation_swap.
Qed.

Lemma sort_scores_perm l : sort_scores l ≡ₚ l.
Proof.
  induction l as [|x l IH]; [done|]. simpl. by rewrite sort_insert_perm, IH.
Qed.

Lemma sort_insert_sorted x l :
  StronglySorted entry_le l -> StronglySorted entry_le (sort_insert x l).
Proof.
  induction 1 as [|y l Hl IH Hy]; cbn [sort_insert].
  - repeat constructor.
  - destruct (key_lt (sort_key y) (sort_key x)) eqn:E.
    + constructor; [done|]. rewrite sort_insert_perm. constructor; [|done].
      unfold entry_le. by apply key_lt_asym.
    + constructor; [by constructor|]. constructor; [done|].
      eapply Forall_impl; [exact Hy|]. intros z Hz. by apply entry_le_trans with y.
Qed.

Lemma sort_scores_sorted l : StronglySorted entry_le (sort_scores l).
Proof.
  induction l as [|x l IH]; simpl; [constructor|]. by apply sort_insert_sorted.
Qed.

Lemma sorted_lookup_le (l : list (string * Z)) i k x y :
  StronglySorted entry_le l ->
  l !! i = Some x -> l !! k = Some y -> (i < k)%nat -> entry_le x y.
Proof.
  intros Hs. revert i k. induction Hs as [|z l Hl IH Hz]; intros i k Hi Hk Hik; [done|].
  destruct k as [|k]; [lia|]. destruct i as [|i]; simpl in *.
  - injection Hi as ->. rewrite Forall_forall in Hz. apply Hz.
    by eapply list_elem_of_lookup_2.
  - apply (IH i k); auto with lia.
Qed.

(** Between entries with different labels the order is strict. *)
Lemma sorted_lookup_lt (l : list (string * Z)) i k x y :
  StronglySorted entry_le l -> NoDup l.*1 ->
  l !! i = Some x -> l !! k = Some y -> (i < k)%nat ->
  key_lt (sort_key x) (sort_key y) = true.
Proof.
  intros Hs Hn Hi Hk Hik.
  destruct (key_lt (sort_key x) (sort_key y)) eqn:E; [done|].
  assert (entry_le x y) as Hle.
  { by apply (sorted_lookup_le l i k). }
  pose proof (key_lt_total _ _ E Hle) as Heq.
  assert (x.1 = y.1) as H1 by (unfold sort_key in Heq; congruence).
  assert (i = k); [|lia].
  eapply NoDup_lookup; [exact Hn| |]; rewrite list_lookup_fmap.
  - by rewrite Hi.
  - rewrite Hk. simpl. by rewrite H1.
Qed.

End KeyOrder.

(** ** recommend_jobs as a function *)

Section Recommend.

Implicit Types (g : WeightedGraph) (skills jobs : list string).

Lemma get_weight_ok item1 item2 g w g' :
  get_weight item1 item2 g = (Ok w, g') -> g' = g /\ w = weight_of item1 item2 g.
Proof.
  unfold get_weight, weight_of. destruct (g !! item1) as [v1|]; [|done].
  destruct (g !! item2); [|done]. simpl. by intros [= <- <-].
Qed.

Lemma get_weight_state item1 item2 g : (get_weight item1 item2 g).2 = g.
Proof.
  unfold get_weight. destruct (g !! item1) as [v1|]; [|done]. by destruct (g !! item2).
Qed.

Lemma total_weight_state skills job g : (total_weight skills job g).2 = g.
Proof.
  induction skills as [|s skills IH]; [done|]. simpl. unfold bind at 1. simpl.
  destruct (has_vertex_helper s g); [|done]. unfold bind.
  pose proof (get_weight_state s job g) as Hw.
  destruct (get_weight s job g) as [[w|e] g1]; simpl in Hw; subst g1; [|done].
  destruct (total_weight skills job g) as [[t|e] g2]; simpl in IH; by subst g2.
Qed.

Lemma total_weight_ok skills job g t g' :
  total_weight skills job g = (Ok t, g') -> g' = g /\ t = tw_of skills job g.
Proof.
  revert t g'. induction skills as [|s skills IH]; intros t g'; simpl.
  - by intros [= <- <-].
  - unfold bind at 1. simpl. destruct (has_vertex_helper s g); [|apply IH].
    unfold bind. destruct (get_weight s job g) as [[w|e] g1] eqn:Ew; [|done].
    apply get_weight_ok in Ew as [-> ->].
    destruct (total_weight skills job g) as [[t'|e] g2] eqn:Et; [|done].
    destruct (IH _ _ eq_refl) as [-> ->]. by intros [= <- <-].
Qed.

Lemma total_weight_run skills job g :
  is_Some (g !! job) -> total_weight skills job g = (Ok (tw_of skills job g), g).
Proof.
  intros [vj Hj]. induction skills as [|s skills IH]; [done|]. simpl.
  unfold bind at 1. simpl. destruct (has_vertex_helper s g) eqn:Hs; [|done].
  apply bool_decide_eq_true in Hs as [v Hv].
  unfold bind. rewrite (get_weight_run g s job v) by eauto. rewrite IH.
  unfold weight_of. by rewrite Hv.
Qed.

Lemma for_in_score_job_ok skills jobs acc g scores g' :
  for_in jobs (score_job skills) acc g = (Ok scores, g') ->
  g' = g /\ scores = acc ++ kept skills g jobs.
Proof.
  revert acc. induction jobs as [|job jobs IH]; intros acc; simpl.
  - intros [= <- <-]. by rewrite app_nil_r.
  - unfold bind at 1, score_job at 1, bind at 1.
    destruct (total_weight skills job g) as [[t|e] g1] eqn:Et; [|done].
    apply total_weight_ok in Et as [-> ->]. unfold kept. simpl.
    destruct (0 <? tw_of skills job g); simpl; intros H; apply IH in H as [-> ->];
      by rewrite <- ?app_assoc.
Qed.

Lemma for_in_score_job_run skills jobs acc g :
  (forall job, job ∈ jobs -> is_Some (g !! job)) ->
  for_in jobs (score_job skills) acc g = (Ok (acc ++ kept skills g jobs), g).
Proof.
  revert acc. induction jobs as [|job jobs IH]; intros acc Hj; simpl.
  - by rewrite app_nil_r.
  - unfold bind at 1, score_job at 1, bind at 1.
    rewrite total_weight_run by (apply Hj; by left). unfold kept. simpl.
    destruct (0 <? tw_of skills job g); simpl; rewrite IH by (intros; apply Hj; by right);
      by rewrite <- ?app_assoc.
Qed.

Lemma backfill_eq jobs (added : gset string) limit scores :
  Z.of_nat (length scores) < limit ->
  backfill jobs added limit scores
  = scores ++ take (Z.to_nat (limit - Z.of_nat (length scores)))
                ((fun job => (job, 1)) <$> filter (fun job => job ∉ added) jobs).
Proof.
  revert scores. induction jobs as [|job jobs IH]; intros scores Hlt; simpl.
  - by rewrite take_nil, app_nil_r.
  - rewrite filter_cons. destruct (decide (job ∈ added)) as [Hin|Hin].
    + rewrite decide_False by tauto.
      destruct (Z.eqb_spec (Z.of_nat (length scores)) limit); [lia|]. by apply IH.
    + rewrite decide_True by done. rewrite length_app. simpl.
      replace (Z.to_nat (limit - Z.of_nat (length scores)))
        with (S (Z.to_nat (limit - Z.of_nat (length scores) - 1))) by lia.
      simpl. destruct (Z.eqb_spec (Z.of_nat (length scores + 1)) limit) as [He|He].
      * replace (Z.to_nat (limit - Z.of_nat (length scores) - 1)) with 0%nat by lia.
        by rewrite take_0.
      * rewrite IH by (rewrite length_app; simpl; lia).
        rewrite <- app_assoc, length_app. simpl.
        by replace (Z.to_nat (limit - Z.of_nat (length scores + 1)))
          with (Z.to_nat (limit - Z.of_nat (length scores) - 1)) by lia.
Qed.

Lemma recommend_jobs_ok I skills limit g out g' :
  recommend_jobs I skills limit g = (Ok out, g') ->
  let jobs := iter I (get_all_vertices "job" g) in
  g' = g /\
  out = take (cut limit (length (kept skills g jobs))) (ranking skills g jobs).
Proof.
  unfold recommend_jobs. unfold bind at 1. simpl. unfold bind.
  destruct (for_in _ _ _ _) as [[scores|e] g1] eqn:Ef; [|done].
  apply for_in_score_job_ok in Ef as [-> ->]. simpl.
  intros [= <-]. split; [done|].
  set (jobs := iter I (get_all_vertices "job" g)).
  set (k := kept skills g jobs).
  assert (length (sort_scores k) = length k) as Hlen by (by rewrite sort_scores_perm).
  assert ((list_to_set (sort_scores k).*1 : gset string) = list_to_set k.*1) as Hset.
  { apply list_to_set_perm_L. by rewrite sort_scores_perm. }
  unfold ranking, cut, slice_to. fold k. rewrite Hlen.
  destruct (Z.ltb_spec (Z.of_nat (length k)) limit) as [Hlt|Hge].
  - rewrite backfill_eq by lia. rewrite Hset, Hlen.
    destruct (Z.leb_spec 0 limit); [|lia].
    rewrite (list_filter_iff (fun job => job ∉ (list_to_set k.*1 : gset string))
               (fun job => job ∉ k.*1)) by (intros; by rewrite elem_of_list_to_set).
    rewrite !take_app, Hlen, take_take.
    rewrite (take_ge (sort_scores k)) by lia.
    do 2 f_equal. lia.
  - destruct (Z.leb_spec 0 limit); rewrite take_app_le, ?Hlen; auto; lia.
Qed.

End Recommend.

Section Ranking.

Implicit Types (g : WeightedGraph) (skills jobs : list string).

Lemma iter_NoDup (I : SetIter) (X : gset string) : NoDup (iter I X).
Proof. rewrite (iter_perm I X). apply NoDup_elements. Qed.

Lemma elem_of_iter (I : SetIter) (X : gset string) x : x ∈ iter I X <-> x ∈ X.
Proof. rewrite (iter_perm I X). apply elem_of_elements. Qed.

Lemma elem_of_kept skills g jobs x :
  x ∈ kept skills g jobs <-> x.1 ∈ jobs /\ x.2 = tw_of skills x.1 g /\ 0 < x.2.
Proof.
  unfold kept. rewrite list_elem_of_omap. split.
  - intros (job & Hj & Hx). destruct (Z.ltb_spec 0 (tw_of skills job g)); [|done].
    injection Hx as <-. simpl. auto.
  - intros (Hj & Ht & Hp). exists x.1. split; [done|]. rewrite <- Ht.
    destruct (Z.ltb_spec 0 x.2); [|lia]. by destruct x.
Qed.

Lemma elem_of_kept_labels skills g jobs job :
  job ∈ (kept skills g jobs).*1 <-> job ∈ jobs /\ 0 < tw_of skills job g.
Proof.
  rewrite list_elem_of_fmap. split.
  - intros (x & -> & Hx). apply elem_of_kept in Hx as (? & Ht & ?). by rewrite <- Ht.
  - intros [Hj Hp]. exists (job, tw_of skills job g). split; [done|].
    by apply elem_of_kept.
Qed.

Lemma kept_labels_sublist skills g jobs : (kept skills g jobs).*1 `sublist_of` jobs.
Proof.
  unfold kept. induction jobs as [|job jobs IH]; simpl; [constructor|].
  destruct (0 <? tw_of skills job g); simpl; by constructor.
Qed.

Lemma kept_labels_NoDup skills g jobs : NoDup jobs -> NoDup (kept skills g jobs).*1.
Proof. intros. eapply sublist_NoDup; [done | apply kept_labels_sublist]. Qed.

Lemma filter_ext_in {A} (P Q : A -> Prop) `{!forall x, Decision (P x), !forall x, Decision (Q x)}
    (l : list A) :
  (forall x, x ∈ l -> P x <-> Q x) -> filter P l = filter Q l.
Proof.
  induction l as [|a l IH]; intros Hext; [done|].
  rewrite !filter_cons.
  rewrite IH by (intros; apply Hext; by right).
  destruct (decide (P a)), (decide (Q a)); try done; exfalso;
    pose proof (Hext a ltac:(by left)); tauto.
Qed.

Lemma kept_labels_filter skills g jobs :
  (kept skills g jobs).*1 = filter (fun job => 0 < tw_of skills job g) jobs.
Proof.
  unfold kept. induction jobs as [|job jobs IH]; [done|]. simpl. rewrite filter_cons.
  destruct (Z.ltb_spec 0 (tw_of skills job g)).
  - rewrite decide_True by done. simpl. f_equal. exact IH.
  - rewrite decide_False by lia. exact IH.
Qed.

Lemma fill_labels (l : list string) : ((fun job => (job, 1)) <$> l).*1 = l.
Proof. induction l as [|a l IH]; [done|]. simpl. f_equal. exact IH. Qed.

Lemma ranking_labels skills g jobs : (ranking skills g jobs).*1 ≡ₚ jobs.
Proof.
  unfold ranking. rewrite fmap_app, sort_scores_perm, fill_labels.
  rewrite (filter_ext_in (fun job => job ∉ (kept skills g jobs).*1)
             (fun job => ~ 0 < tw_of skills job g)).
  - rewrite kept_labels_filter. apply filter_app_complement.
  - intros job Hj. rewrite elem_of_kept_labels. tauto.
Qed.

Lemma ranking_NoDup skills g jobs : NoDup jobs -> NoDup (ranking skills g jobs).*1.
Proof. by rewrite ranking_labels. Qed.

Lemma length_ranking skills g jobs : length (ranking skills g jobs) = length jobs.
Proof.
  rewrite <- (length_fmap fst (ranking skills g jobs)).
  apply Permutation_length, ranking_labels.
Qed.

(** An entry with a positive computed score sits in the sorted part. *)
Lemma ranking_lookup_kept skills g jobs i x :
  NoDup jobs -> ranking skills g jobs !! i = Some x -> 0 < tw_of skills x.1 g ->
  sort_scores (kept skills g jobs) !! i = Some x /\ x.2 = tw_of skills x.1 g.
Proof.
  intros Hn Hi Hp. unfold ranking in Hi.
  apply lookup_app_Some in Hi as [Hi|[_ Hi]].
  - split; [done|]. apply list_elem_of_lookup_2 in Hi.
    rewrite sort_scores_perm in Hi. by apply elem_of_kept in Hi as (_ & ? & _).
  - exfalso. apply list_elem_of_lookup_2, list_elem_of_fmap in Hi as (job & -> & Hj).
    apply list_elem_of_filter in Hj as [Hnk Hj]. apply Hnk, elem_of_kept_labels. auto.
Qed.

Lemma ranking_lookup_bound skills g jobs i x :
  sort_scores (kept skills g jobs) !! i = Some x -> ranking skills g jobs !! i = Some x.
Proof. intros. unfold ranking. by apply lookup_app_l_Some. Qed.

End Ranking.

(** C5.  In the list [recommend_jobs] returns, an entry whose computed score
    is strictly positive and whose label does not contain "[Low Match]" comes
    before every entry whose label contains it, whatever the scores; and of
    two entries with strictly positive computed scores that agree on
    containing the marker, the earlier one carries the higher score, or the
    same score and the lexicographically smaller label.  Such entries carry
    their computed score. *)
Theorem recommend_jobs_order (I : SetIter) (skills : list string) (limit : Z)
    (g g' : WeightedGraph) (out : list (string * Z))
    (i k : nat) (x y : string * Z) (tx : Z) :
  recommend_jobs I skills limit g = (Ok out, g') ->
  out !! i = Some x -> out !! k = Some y ->
  total_weight skills x.1 g = (Ok tx, g) -> 0 < tx ->
  x.2 = tx
  /\ (str_in marker x.1 = false -> str_in marker y.1 = true -> (i < k)%nat)
  /\ (forall ty, total_weight skills y.1 g = (Ok ty, g) -> 0 < ty ->
      str_in marker x.1 = str_in marker y.1 -> (i < k)%nat ->
      y.2 = ty /\ (y.2 < x.2 \/ x.2 = y.2 /\ str_lt x.1 y.1 = true)).
Proof.
  intros Hrun Hi Hk Htx Hpx.
  apply recommend_jobs_ok in Hrun as [-> ->].
  apply total_weight_ok in Htx as [_ ->].
  set (jobs := iter I (get_all_vertices "job" g)) in *.
  assert (NoDup jobs) as Hn by apply iter_NoDup.
  apply lookup_take_Some in Hi as [Hi _]. apply lookup_take_Some in Hk as [Hk _].
  destruct (ranking_lookup_kept skills g jobs i x Hn Hi Hpx) as [Hsi Hx2].
  pose proof (sort_scores_sorted (kept skills g jobs)) as Hs.
  assert (NoDup (sort_scores (kept skills g jobs)).*1) as Hns.
  { rewrite sort_scores_perm. by apply kept_labels_NoDup. }
  split; [done|]. split.
  - intros Hmx Hmy.
    destruct (decide (i < k)%nat) as [|Hge]; [done|]. exfalso.
    assert (sort_scores (kept skills g jobs) !! k = Some y) as Hsk.
    { apply lookup_lt_Some in Hsi.
      destruct (lookup_lt_is_Some_2 (sort_scores (kept skills g jobs)) k) as [y' Hy'];
        [lia|].
      rewrite (ranking_lookup_bound _ _ _ _ _ Hy') in Hk. congruence. }
    destruct (decide (i = k)) as [->|Hne]; [congruence|].
    assert (key_lt (sort_key y) (sort_key x) = true) as Hlt.
    { apply (sorted_lookup_lt (sort_scores (kept skills g jobs)) k i); auto with lia. }
    unfold sort_key, key_lt in Hlt. rewrite Hmx, Hmy in Hlt. done.
  - intros ty Hty Hpy Hm Hik.
    apply total_weight_ok in Hty as [_ ->].
    destruct (ranking_lookup_kept skills g jobs k y Hn Hk Hpy) as [Hsk Hy2].
    split; [done|].
    assert (key_lt (sort_key x) (sort_key y) = true) as Hlt.
    { by apply (sorted_lookup_lt (sort_scores (kept skills g jobs)) i k). }
    unfold sort_key, key_lt in Hlt. rewrite Hm, Bool.eqb_reflx in Hlt. simpl in Hlt.
    destruct (Z.eqb_spec (- x.2) (- y.2)); simpl in Hlt; [right|left]; [split|]; lia || done.
Qed.

Lemma recommend_jobs_order_witness :
  let g := build_st ["python"] jobs_ex in
  let x := ("A at X", 1) in
  let y := ("C at X [Low Match]", 1) in
  x.2 = 1
  /\ (str_in marker x.1 = false -> str_in marker y.1 = true -> (1 < 2)%nat)
  /\ (forall ty, total_weight ["python"] y.1 g = (Ok ty, g) -> 0 < ty ->
      str_in marker x.1 = str_in marker y.1 -> (1 < 2)%nat ->
      y.2 = ty /\ (y.2 < x.2 \/ x.2 = y.2 /\ str_lt x.1 y.1 = true)).
Proof.
  intros g x y.
  apply (recommend_jobs_order iter_elements ["python"] 5 g g
           [("B at X", 2); x; y; ("C at X", 1)] 1 2 x y 1);
    vm_compute; reflexivity.
Defined.

(** ** Vertices by kind *)

Section Vertices.

Implicit Types (g : WeightedGraph) (skills jobs : list string).

Lemma lower_char_idemp (c : ascii) : lower_char (lower_char c) = lower_char c.
Proof. destruct c as [[] [] [] [] [] [] [] []]; reflexivity. Qed.

Lemma lower_idemp (s : string) : lower (lower s) = lower s.
Proof. induction s as [|c s IH]; [done|]. simpl. by rewrite lower_char_idemp, IH. Qed.

Lemma elem_of_get_all_vertices k g x :
  k <> "" ->
  x ∈ get_all_vertices k g <-> exists key v, g !! key = Some v /\ kind v = k /\ item v = x.
Proof.
  intros Hk. unfold get_all_vertices. rewrite decide_False by done.
  rewrite elem_of_list_to_set, list_elem_of_fmap. split.
  - intros (v & -> & Hv). apply list_elem_of_filter in Hv as [Hkind Hv].
    apply list_elem_of_fmap in Hv as ([key v'] & -> & Hv).
    apply elem_of_map_to_list in Hv. by exists key, v'.
  - intros (key & v & Hv & Hkind & <-). exists v. split; [done|].
    apply list_elem_of_filter. split; [done|].
    apply list_elem_of_fmap. exists (key, v). split; [done|]. by apply elem_of_map_to_list.
Qed.

Lemma elem_of_job_vertices g x :
  keyed g ->
  x ∈ get_all_vertices "job" g <-> exists v, g !! x = Some v /\ kind v = "job".
Proof.
  intros Hg. rewrite elem_of_get_all_vertices by done. split.
  - intros (key & v & Hv & Hkind & <-). exists v. by rewrite (Hg key v Hv).
  - intros (v & Hv & Hkind). exists x, v. eauto.
Qed.

Lemma recommend_jobs_run I skills limit g :
  keyed g ->
  let jobs := iter I (get_all_vertices "job" g) in
  recommend_jobs I skills limit g
  = (Ok (take (cut limit (length (kept skills g jobs))) (ranking skills g jobs)), g).
Proof.
  intros Hg jobs.
  assert (exists out, recommend_jobs I skills limit g = (Ok out, g)) as [out Hout].
  { unfold recommend_jobs. unfold bind at 1. simpl. unfold bind.
    rewrite for_in_score_job_run; [by eexists|].
    intros job Hj. apply elem_of_iter, elem_of_job_vertices in Hj as (v & Hv & _); eauto. }
  rewrite Hout. by apply recommend_jobs_ok in Hout as [_ ->].
Qed.

(** The sorted part does not depend on the order of the iteration. *)
Lemma sort_scores_unique (l1 l2 : list (string * Z)) :
  l1 ≡ₚ l2 -> sort_scores l1 = sort_scores l2.
Proof.
  intros Hp. apply (StronglySorted_unique_strong entry_le).
  - intros x1 x2 _ _ H12 H21. unfold entry_le in *.
    pose proof (key_lt_total _ _ H12 H21) as Heq. unfold sort_key in Heq.
    destruct x1, x2; simpl in *. f_equal; [congruence|]. injection Heq. lia.
  - apply sort_scores_sorted.
  - apply sort_scores_sorted.
  - by rewrite !sort_scores_perm.
Qed.

Lemma kept_perm skills g jobs jobs' :
  jobs ≡ₚ jobs' -> kept skills g jobs ≡ₚ kept skills g jobs'.
Proof. intros Hp. unfold kept. by rewrite Hp. Qed.

Lemma perm_short {A} (l l' : list A) : l ≡ₚ l' -> (length l <= 1)%nat -> l' = l.
Proof.
  intros Hp Hl. destruct l as [|a [|b l]]; simpl in Hl; [| |lia].
  - by apply Permutation_nil_l in Hp.
  - by apply Permutation_singleton_l in Hp.
Qed.

(** When at most one job is left to the second loop, neither does the
    result. *)
Lemma ranking_any_order skills g jobs jobs' :
  jobs ≡ₚ jobs' ->
  (length (filter (fun job => job ∉ (kept skills g jobs).*1) jobs) <= 1)%nat ->
  ranking skills g jobs' = ranking skills g jobs.
Proof.
  intros Hp Hl. unfold ranking. f_equal.
  - apply sort_scores_unique. by apply kept_perm.
  - f_equal.
    rewrite (list_filter_iff (fun job => job ∉ (kept skills g jobs').*1)
               (fun job => job ∉ (kept skills g jobs).*1)).
    2:{ intros job. by rewrite (kept_perm skills g jobs jobs' Hp). }
    apply perm_short; [|done]. by rewrite Hp.
Qed.

Lemma recommend_jobs_any_order I skills limit g :
  keyed g ->
  let jobs := elements (get_all_vertices "job" g) in
  (length (filter (fun job => job ∉ (kept skills g jobs).*1) jobs) <= 1)%nat ->
  recommend_jobs I skills limit g = recommend_jobs iter_elements skills limit g.
Proof.
  intros Hg jobs Hl. rewrite !recommend_jobs_run by done. simpl. fold jobs.
  pose proof (iter_perm I (get_all_vertices "job" g)) as Hp. symmetry in Hp. fold jobs in Hp.
  rewrite (ranking_any_order skills g jobs _ Hp Hl).
  by rewrite <- (Permutation_length (kept_perm skills g _ _ Hp)).
Qed.

End Vertices.

(** ** The graph that build_graph returns *)

Section Built.

Implicit Types (g : WeightedGraph) (skills : list string) (jobs : list posting).

Lemma add_vertex_st_lookup it kd g k v :
  add_vertex_st it kd g !! k = Some v ->
  g !! k = Some v \/ (k = it /\ g !! it = None /\ v = mkVertex it kd ∅).
Proof.
  unfold add_vertex_st. destruct (g !! it) eqn:E; [by left|].
  rewrite lookup_insert. case_decide; [|by left]. intros [= <-]. right. by subst.
Qed.

Lemma skills_st_lookup skills g k v :
  skills_st skills g !! k = Some v ->
  g !! k = Some v \/ (k ∈ lower <$> skills /\ v = mkVertex k "skill" ∅).
Proof.
  unfold skills_st. revert g. induction skills as [|s skills IH]; intros g; simpl; [by left|].
  intros H. apply IH in H as [H|[H ->]].
  - apply add_vertex_st_lookup in H as [H|(-> & _ & ->)]; [by left|].
    right. split; [by left|done].
  - right. split; [by right|done].
Qed.

Lemma built_skills_st skills : built skills (skills_st skills ∅).
Proof.
  split.
  - intros k v H. by apply skills_st_lookup in H as [H|[_ ->]].
  - apply skills_st_has_skills.
  - intros k v H. apply skills_st_lookup in H as [H|[Hk ->]]; [done|].
    by rewrite decide_True.
  - intros k v n H. apply skills_st_lookup in H as [H|[Hk ->]]; [done|]. by left.
Qed.

Lemma built_add_vertex_job skills g j :
  built skills g -> built skills (add_vertex_st j "job" g).
Proof.
  intros [Hk Hs Hkind He]. split.
  - by apply add_vertex_st_keyed.
  - intros s Hin. apply add_vertex_st_is_Some. right. by apply Hs.
  - intros k v H. apply add_vertex_st_lookup in H as [H|(-> & Hnone & ->)]; [eauto|].
    simpl. rewrite decide_False; [done|].
    intros (s & -> & Hin)%list_elem_of_fmap. destruct (Hs s Hin) as [? ?]. congruence.
  - intros k v n H. apply add_vertex_st_lookup in H as [H|(-> & Hnone & ->)]; [eauto|].
    simpl. rewrite lookup_empty. by intros [? ?].
Qed.

Lemma built_link skills g a j w :
  a ∈ lower <$> skills -> built skills g -> built skills (link a j w g).
Proof.
  intros Ha [Hk Hs Hkind He]. split.
  - by apply link_keyed.
  - intros s Hin. by apply link_is_Some, Hs.
  - intros k v. rewrite lookup_link. destruct (g !! k) as [v0|] eqn:E; [|done].
    simpl. intros [= <-]. rewrite <- (Hkind k v0 E). by repeat case_decide.
  - intros k v n. rewrite lookup_link. destruct (g !! k) as [v0|] eqn:E; [|done].
    simpl. intros [= <-]. pose proof (He k v0 n E).
    repeat case_decide; simpl; rewrite ?lookup_insert_is_Some';
      intros; destruct_or?; subst; auto.
Qed.

Lemma built_match_fold skills g content j sub :
  sub ⊆ skills -> built skills g -> built skills (foldl (match_step content j) g sub).
Proof.
  revert g. induction sub as [|s sub IH]; intros g Hsub Hg; [done|]. simpl.
  apply IH; [set_solver|]. unfold match_step. case_match; [|done].
  apply built_link; [|done]. apply list_elem_of_fmap_2. set_solver.
Qed.

Lemma built_add_job skills g job :
  built skills g -> built skills (add_job_st skills g job).
Proof.
  intros Hg. unfold add_job_st.
  assert (built skills (foldl (match_step (content_of job) (job_id_of job))
                          (add_vertex_st (job_id_of job) "job" g) skills)) as H2.
  { apply built_match_fold; [done|]. by apply built_add_vertex_job. }
  destruct skills as [|s0 skills]; [done|]. case_match; [|done].
  apply built_link; [by left|]. by apply built_add_vertex_job.
Qed.

Lemma built_build_st skills jobs : built skills (build_st skills jobs).
Proof.
  unfold build_st. generalize (built_skills_st skills).
  generalize (skills_st skills ∅). induction jobs as [|job jobs IH]; intros g Hg; [done|].
  simpl. apply IH. by apply built_add_job.
Qed.

(** A graph returned by [build_graph] is a built one. *)
Lemma build_graph_built skills jobs g :
  build_graph skills jobs = Ok g -> built skills g.
Proof.
  unfold build_graph, build_graph_body, bind. rewrite for_in_add_skills.
  generalize (built_skills_st skills). generalize (skills_st skills ∅).
  induction jobs as [|job jobs IH]; intros g0 Hg0; simpl.
  - by intros [= <-].
  - unfold bind. destruct (decide (well_formed job)) as [Hw|Hw].
    + rewrite add_job_run by (done || apply Hg0). apply IH. by apply built_add_job.
    + by rewrite add_job_raise.
Qed.

End Built.

Section Uppercase.

Implicit Types (g : WeightedGraph) (skills : list string).

Lemma not_lower_not_skill skills skill :
  lower skill <> skill -> skill ∉ lower <$> skills.
Proof.
  intros Hne (s & Hs & _)%list_elem_of_fmap. apply Hne. rewrite Hs. apply lower_idemp.
Qed.

Lemma job_vertex_not_skill skills g job :
  built skills g -> job ∈ get_all_vertices "job" g ->
  is_Some (g !! job) /\ job ∉ lower <$> skills.
Proof.
  intros Hg Hj. apply elem_of_job_vertices in Hj as (v & Hv & Hkind); [|apply Hg].
  split; [by eauto|]. intros Hin. rewrite (built_kind _ _ Hg _ _ Hv) in Hkind.
  by rewrite decide_True in Hkind.
Qed.

Lemma get_weight_not_skill skills g skill job :
  built skills g -> lower skill <> skill -> job ∈ get_all_vertices "job" g ->
  has_vertex_helper skill g = true -> get_weight skill job g = (Ok 0, g).
Proof.
  intros Hg Hne Hj Hhas. apply bool_decide_eq_true in Hhas as [v Hv].
  destruct (job_vertex_not_skill skills g job Hg Hj) as [Hjob Hnj].
  rewrite (get_weight_run g skill job v Hv Hjob).
  destruct (neighbours v !! job) eqn:En; [|done].
  destruct (built_edges _ _ Hg skill v job Hv) as [H|H]; [by eauto| |done].
  by apply not_lower_not_skill in H.
Qed.

Lemma total_weight_cons s skills job g :
  total_weight (s :: skills) job g
  = if has_vertex_helper s g
    then match get_weight s job g with
         | (Ok w, g1) =>
             match total_weight skills job g1 with
             | (Ok t, g2) => (Ok (w + t), g2)
             | (Raise e, g2) => (Raise e, g2)
             end
         | (Raise e, g1) => (Raise e, g1)
         end
    else total_weight skills job g.
Proof.
  simpl. unfold bind at 1. simpl. by destruct (has_vertex_helper s g).
Qed.

Lemma total_weight_drop skills0 skills g skill job :
  built skills0 g -> lower skill <> skill -> job ∈ get_all_vertices "job" g ->
  total_weight skills job g = total_weight (filter (fun s => s <> skill) skills) job g.
Proof.
  intros Hg Hne Hj. induction skills as [|s skills IH]; [done|].
  rewrite filter_cons, total_weight_cons. destruct (decide (s <> skill)) as [Hs|Hs].
  - rewrite total_weight_cons. destruct (has_vertex_helper s g); [|done].
    destruct (get_weight s job g) as [[w|e] g1] eqn:Ew; [|done].
    apply get_weight_ok in Ew as [-> _]. by rewrite IH.
  - apply dec_stable in Hs as ->.
    destruct (has_vertex_helper skill g) eqn:Hhas; [|done].
    rewrite (get_weight_not_skill skills0 g skill job) by done.
    rewrite IH. clear IH.
    by destruct (total_weight _ job g) as [[t|e] g1]; rewrite ?Z.add_0_l.
Qed.

End Uppercase.

(** C4.  A skill that differs from its lower-cased form is not a skill vertex
    of the graph [build_graph] returns, so [has_vertex_helper] rejects it,
    unless the same string is the label of a job vertex; either way it adds
    nothing to the computed score of any job: where the membership test
    accepts it, [get_weight] returns 0, and the sum over the skills is the
    sum over the skills without it. *)
Theorem uppercase_skill_adds_nothing (skills : list string) (jobs : list posting)
    (g : WeightedGraph) (skill : string) :
  build_graph skills jobs = Ok g -> skill ∈ skills -> lower skill <> skill ->
  (has_vertex_helper skill g = true <-> skill ∈ get_all_vertices "job" g)
  /\ forall job, job ∈ get_all_vertices "job" g ->
      (has_vertex_helper skill g = true -> get_weight skill job g = (Ok 0, g))
      /\ total_weight skills job g
         = total_weight (filter (fun s => s <> skill) skills) job g.
Proof.
  intros Hb Hin Hne. apply build_graph_built in Hb. split.
  - rewrite elem_of_job_vertices by apply Hb. unfold has_vertex_helper.
    rewrite bool_decide_eq_true. split.
    + intros [v Hv]. exists v. split; [done|].
      rewrite (built_kind _ _ Hb _ _ Hv). rewrite decide_False; [done|].
      by apply not_lower_not_skill.
    + intros (v & Hv & _). eauto.
  - intros job Hj. split.
    + by apply (get_weight_not_skill skills).
    + by apply (total_weight_drop skills).
Qed.

Lemma uppercase_skill_adds_nothing_witness :
  let g := build_st ["Python"] [job_of "Dev" "Acme" "python python"] in
  (has_vertex_helper "Python" g = true <-> "Python" ∈ get_all_vertices "job" g)
  /\ forall job, job ∈ get_all_vertices "job" g ->
      (has_vertex_helper "Python" g = true -> get_weight "Python" job g = (Ok 0, g))
      /\ total_weight ["Python"] job g
         = total_weight (filter (fun s => s <> "Python") ["Python"]) job g.
Proof.
  intros g.
  apply (uppercase_skill_adds_nothing ["Python"] [job_of "Dev" "Acme" "python python"] g "Python").
  - vm_compute. reflexivity.
  - by left.
  - vm_compute. discriminate.
Defined.

(** C4, as stated, fails when the skill is also the label of a posting: the
    membership test accepts it. *)
Lemma uppercase_skill_not_skipped :
  exists g, build_graph ["Dev at Acme"] [bare_job "Dev" "Acme"] = Ok g
            /\ lower "Dev at Acme" = "dev at acme"
            /\ has_vertex_helper "Dev at Acme" g = true.
Proof. eexists. split; [vm_compute; reflexivity|]. split; vm_compute; reflexivity. Qed.

(** ** The vertices of the built graph *)

Section BuiltVertices.

Implicit Types (g : WeightedGraph) (skills : list string) (jobs : list posting).

Lemma dom_add_vertex_st it k g : dom (add_vertex_st it k g) = {[it]} ∪ dom g.
Proof.
  unfold add_vertex_st. destruct (g !! it) eqn:E.
  - apply elem_of_dom_2 in E. set_solver.
  - apply dom_insert_L.
Qed.

Lemma dom_link item1 item2 weight g : dom (link item1 item2 weight g) = dom g.
Proof. unfold link. by rewrite !dom_alter_L. Qed.

Lemma dom_match_fold content j skills g :
  dom (foldl (match_step content j) g skills) = dom g.
Proof.
  revert g. induction skills as [|s skills IH]; intros g; [done|]. simpl.
  rewrite IH. unfold match_step. case_match; [apply dom_link|done].
Qed.

Lemma dom_add_job_st skills g job :
  dom (add_job_st skills g job) = dom g ∪ list_to_set (job_labels skills job).
Proof.
  unfold add_job_st, job_labels.
  destruct skills as [|s0 skills].
  - rewrite dom_match_fold, dom_add_vertex_st. set_solver.
  - case_match.
    + rewrite dom_link, dom_add_vertex_st, dom_match_fold, dom_add_vertex_st. set_solver.
    + rewrite dom_match_fold, dom_add_vertex_st. set_solver.
Qed.

Lemma dom_skills_st skills g :
  dom (skills_st skills g) = list_to_set (lower <$> skills) ∪ dom g.
Proof.
  unfold skills_st. revert g. induction skills as [|s skills IH]; intros g; simpl.
  - set_solver.
  - rewrite IH, dom_add_vertex_st. set_solver.
Qed.

Lemma dom_build_st skills jobs :
  dom (build_st skills jobs)
  = list_to_set (lower <$> skills) ∪ list_to_set (jobs ≫= job_labels skills).
Proof.
  unfold build_st.
  assert (forall g, dom (foldl (add_job_st skills) g jobs)
                    = dom g ∪ list_to_set (jobs ≫= job_labels skills)) as H.
  { induction jobs as [|job jobs IH]; intros g; simpl.
    - set_solver.
    - rewrite IH, dom_add_job_st, list_to_set_app_L. set_solver. }
  rewrite H, dom_skills_st, dom_empty_L. set_solver.
Qed.

Lemma job_vertices_built skills g :
  built skills g ->
  get_all_vertices "job" g = dom g ∖ list_to_set (lower <$> skills).
Proof.
  intros Hg. apply set_eq. intros x.
  rewrite elem_of_job_vertices by apply Hg.
  rewrite elem_of_difference, elem_of_dom, elem_of_list_to_set. split.
  - intros (v & Hv & Hkind). split; [by eauto|]. intros Hin.
    rewrite (built_kind _ _ Hg _ _ Hv), decide_True in Hkind; done.
  - intros [[v Hv] Hnin]. exists v. split; [done|].
    by rewrite (built_kind _ _ Hg _ _ Hv), decide_False.
Qed.

Lemma skill_vertices_built skills g :
  built skills g -> get_all_vertices "skill" g = list_to_set (lower <$> skills).
Proof.
  intros Hg. apply set_eq. intros x.
  rewrite elem_of_get_all_vertices by done. rewrite elem_of_list_to_set. split.
  - intros (key & v & Hv & Hkind & <-). rewrite (built_keyed _ _ Hg _ _ Hv).
    rewrite (built_kind _ _ Hg _ _ Hv) in Hkind. by case_decide.
  - intros Hin. pose proof Hin as (s & -> & Hs)%list_elem_of_fmap.
    destruct (built_skills _ _ Hg s Hs) as [v Hv]. exists (lower s), v.
    split; [done|]. split; [|by apply (built_keyed _ _ Hg)].
    by rewrite (built_kind _ _ Hg _ _ Hv), decide_True.
Qed.

Lemma kept_no_skills g (ids : list string) : kept [] g ids = [].
Proof. unfold kept. induction ids as [|job ids IH]; [done|]. exact IH. Qed.

Lemma filter_all {A} (P : A -> Prop) `{!forall x, Decision (P x)} (l : list A) :
  (forall x, P x) -> filter P l = l.
Proof.
  intros HP. induction l as [|a l IH]; [done|].
  by rewrite filter_cons, decide_True, IH.
Qed.

Lemma ranking_no_skills g (ids : list string) :
  ranking [] g ids = (fun job => (job, 1)) <$> ids.
Proof.
  unfold ranking. rewrite kept_no_skills. simpl. f_equal.
  apply filter_all. intros x. apply not_elem_of_nil.
Qed.

Lemma job_labels_no_skills jobs : jobs ≫= job_labels [] = job_id_of <$> jobs.
Proof. induction jobs as [|job jobs IH]; [done|]. by rewrite bind_cons, fmap_cons, IH. Qed.

Lemma run_search_any_order I skills jobs limit :
  Forall well_formed jobs ->
  let g := build_st skills jobs in
  let all := elements (get_all_vertices "job" g) in
  (length (filter (fun job => job ∉ (kept skills g all).*1) all) <= 1)%nat ->
  run_search I skills jobs limit = run_search iter_elements skills jobs limit.
Proof.
  intros Hw g all Hl. unfold run_search. rewrite build_graph_run by done. fold g.
  rewrite recommend_jobs_any_order; [done| |done]. apply (built_build_st skills jobs).
Qed.

End BuiltVertices.

(** C1.  With the empty skill list [build_graph] creates no skill vertex and
    no fallback vertex: the vertices are exactly the labels of the postings,
    all of kind "job".  On that graph [recommend_jobs] with the empty skill
    list and a positive limit returns the first [limit] jobs of the iteration
    over the job vertices, each with score 1; it is empty only when there is
    no posting. *)
Theorem empty_skill_list (I : SetIter) (jobs : list posting) (limit : Z) :
  Forall well_formed jobs -> 0 < limit ->
  exists g, build_graph [] jobs = Ok g
    /\ get_all_vertices "skill" g = ∅
    /\ dom g = list_to_set (job_id_of <$> jobs)
    /\ get_all_vertices "job" g = list_to_set (job_id_of <$> jobs)
    /\ recommend_jobs I [] limit g
       = (Ok (take (Z.to_nat limit)
                ((fun job => (job, 1)) <$> iter I (get_all_vertices "job" g))), g).
Proof.
  intros Hw Hl. exists (build_st [] jobs).
  pose proof (built_build_st [] jobs) as Hg.
  assert (dom (build_st [] jobs) = list_to_set (job_id_of <$> jobs)) as Hdom.
  { rewrite dom_build_st, job_labels_no_skills. set_solver. }
  split; [by apply build_graph_run|].
  split; [by rewrite (skill_vertices_built [])|].
  split; [done|].
  split; [rewrite (job_vertices_built []), Hdom by done; set_solver|].
  rewrite recommend_jobs_run by apply Hg. simpl.
  rewrite kept_no_skills, ranking_no_skills. unfold cut. simpl.
  destruct (Z.leb_spec 0 limit); [done|lia].
Qed.

Lemma empty_skill_list_witness :
  exists g, build_graph [] jobs_ex = Ok g
    /\ get_all_vertices "skill" g = ∅
    /\ dom g = list_to_set (job_id_of <$> jobs_ex)
    /\ get_all_vertices "job" g = list_to_set (job_id_of <$> jobs_ex)
    /\ recommend_jobs iter_elements [] 2 g
       = (Ok (take (Z.to_nat 2)
                ((fun job => (job, 1)) <$> iter iter_elements (get_all_vertices "job" g))), g).
Proof.
  apply (empty_skill_list iter_elements jobs_ex 2); [|lia].
  repeat constructor; vm_compute; eauto.
Defined.

(** C1, as stated, fails as soon as there is a posting: the second loop of
    [recommend_jobs] fills the list with the job vertices. *)
Lemma empty_skill_list_not_empty :
  (forall I, run_search I [] [bare_job "Dev" "Acme"] 5 = Ok [("Dev at Acme", 1)])
  /\ [("Dev at Acme", 1)] <> ([] : list (string * Z)).
Proof.
  split; [|done]. intros I. rewrite run_search_any_order.
  - vm_compute. reflexivity.
  - repeat constructor; vm_compute; eauto.
  - vm_compute. lia.
Qed.

(** ** A posting without any keyword *)

(** C2.  For skills ["java"] and the one posting Dev/Acme with description
    "no relevant keywords here", the graph has exactly the two job vertices
    "Dev at Acme", without edges and with computed score 0, and
    "Dev at Acme [Low Match]", joined to "java" with weight 1; and
    [recommend_jobs] with limit 5 returns the fallback entry followed by
    "Dev at Acme" itself, which the second loop appends with score 1. *)
Theorem keyword_free_posting (I : SetIter) :
  exists g, build_graph ["java"] [java_job] = Ok g
    /\ get_all_vertices "job" g = {[ "Dev at Acme"; "Dev at Acme [Low Match]" ]}
    /\ (exists v, g !! "Dev at Acme" = Some v /\ neighbours v = ∅)
    /\ total_weight ["java"] "Dev at Acme" g = (Ok 0, g)
    /\ get_weight "java" "Dev at Acme [Low Match]" g = (Ok 1, g)
    /\ total_weight ["java"] "Dev at Acme [Low Match]" g = (Ok 1, g)
    /\ recommend_jobs I ["java"] 5 g
       = (Ok [("Dev at Acme [Low Match]", 1); ("Dev at Acme", 1)], g).
Proof.
  exists (build_st ["java"] [java_job]).
  split; [by vm_compute|]. split; [by vm_compute|].
  split; [eexists; split; by vm_compute|].
  do 3 (split; [by vm_compute|]).
  rewrite recommend_jobs_any_order.
  - by vm_compute.
  - apply (built_build_st ["java"] [java_job]).
  - vm_compute. lia.
Qed.

(** C2, as stated, fails: the list has a second entry. *)
Lemma keyword_free_posting_two_entries :
  (forall I, run_search I ["java"] [java_job] 5
             = Ok [("Dev at Acme [Low Match]", 1); ("Dev at Acme", 1)])
  /\ [("Dev at Acme [Low Match]", 1); ("Dev at Acme", 1)]
     <> [("Dev at Acme [Low Match]", 1)].
Proof.
  split; [|done]. intros I. rewrite run_search_any_order.
  - by vm_compute.
  - repeat constructor; vm_compute; eauto.
  - vm_compute. lia.
Qed.

(** ** Re-ordering the skill list *)

Section Reorder.

Implicit Types (g : WeightedGraph) (skills : list string) (jobs : list posting).

Lemma foldl_comm_perm {A B} (f : B -> A -> B) (l l' : list A) :
  (forall b x y, f (f b x) y = f (f b y) x) ->
  l ≡ₚ l' -> forall b, foldl f b l = foldl f b l'.
Proof.
  intros Hf. induction 1 as [|x l l' Hp IH|x y l|l l' l'' Hp IH Hp' IH']; intros b; simpl.
  - done.
  - apply IH.
  - by rewrite Hf.
  - by rewrite IH, IH'.
Qed.

Lemma add_vertex_st_comm a b k g :
  add_vertex_st a k (add_vertex_st b k g) = add_vertex_st b k (add_vertex_st a k g).
Proof.
  destruct (decide (a = b)) as [->|Hne]; [done|].
  unfold add_vertex_st.
  destruct (g !! a) eqn:Ea, (g !! b) eqn:Eb;
    rewrite ?lookup_insert_ne, ?Ea, ?Eb by done; try done.
  by apply insert_insert_ne.
Qed.

Lemma link_comm a b j w1 w2 g :
  (a = b -> w1 = w2) ->
  link a j w1 (link b j w2 g) = link b j w2 (link a j w1 g).
Proof.
  intros Hw. apply map_eq. intros k. rewrite !lookup_link.
  destruct (g !! k) as [[it kd nb]|]; [|done]. simpl. f_equal.
  destruct (decide (a = b)) as [->|Hne]; [by rewrite Hw|].
  unfold set_neighbour.
  repeat case_decide; subst; simpl; f_equal; try done;
    apply map_eq; intros x; rewrite !lookup_insert; repeat case_decide; congruence.
Qed.

Lemma match_step_comm content j g x y :
  match_step content j (match_step content j g x) y
  = match_step content j (match_step content j g y) x.
Proof.
  unfold match_step. repeat case_match; try done.
  apply link_comm. by intros ->.
Qed.

Lemma match_total_perm content skills skills' acc :
  skills ≡ₚ skills' -> match_total content skills acc = match_total content skills' acc.
Proof.
  intros Hp. unfold match_total. apply foldl_comm_perm; [|done].
  intros b x y. repeat case_match; lia.
Qed.

Lemma add_job_st_perm skills skills' g job :
  skills ≡ₚ skills' -> head skills = head skills' ->
  add_job_st skills g job = add_job_st skills' g job.
Proof.
  intros Hp Hh. unfold add_job_st.
  rewrite (foldl_comm_perm _ skills skills' (match_step_comm _ _) Hp).
  rewrite (match_total_perm _ skills skills' 0 Hp).
  destruct skills as [|s0 skills], skills' as [|s0' skills']; simpl in Hh; try done.
  by injection Hh as ->.
Qed.

Lemma skills_st_perm skills skills' g :
  skills ≡ₚ skills' -> skills_st skills g = skills_st skills' g.
Proof.
  intros Hp. unfold skills_st. apply foldl_comm_perm; [|done].
  intros b x y. apply add_vertex_st_comm.
Qed.

Lemma has_skills_perm skills skills' g :
  skills ≡ₚ skills' -> has_skills skills g -> has_skills skills' g.
Proof. intros Hp Hs s Hin. apply Hs. by rewrite Hp. Qed.

Lemma for_in_add_job_perm skills skills' jobs g :
  skills ≡ₚ skills' -> head skills = head skills' -> has_skills skills g ->
  for_in jobs (add_job skills) tt g = for_in jobs (add_job skills') tt g.
Proof.
  intros Hp Hh. revert g. induction jobs as [|job jobs IH]; intros g Hs; [done|].
  simpl. unfold bind. destruct (decide (well_formed job)) as [Hw|Hw].
  - rewrite !add_job_run by eauto using has_skills_perm.
    rewrite <- (add_job_st_perm skills skills' g job Hp Hh).
    apply IH. by apply add_job_st_has_skills.
  - by rewrite !add_job_raise.
Qed.

Lemma build_graph_perm skills skills' jobs :
  skills ≡ₚ skills' -> head skills = head skills' ->
  build_graph skills jobs = build_graph skills' jobs.
Proof.
  intros Hp Hh. unfold build_graph, build_graph_body, bind.
  rewrite !for_in_add_skills, <- (skills_st_perm skills skills' ∅ Hp).
  by rewrite (for_in_add_job_perm skills skills' jobs _ Hp Hh)
    by apply skills_st_has_skills.
Qed.

Lemma tw_of_perm skills skills' job g :
  skills ≡ₚ skills' -> tw_of skills job g = tw_of skills' job g.
Proof.
  induction 1 as [|x l l' Hp IH|x y l|l l' l'' Hp IH Hp' IH']; simpl.
  - done.
  - by rewrite IH.
  - repeat case_match; lia.
  - by rewrite IH, IH'.
Qed.

Lemma get_weight_no_job s job g :
  g !! job = None -> get_weight s job g = (Raise KeyError, g).
Proof. intros Hj. unfold get_weight. rewrite Hj. by destruct (g !! s). Qed.

Lemma total_weight_perm skills skills' job g :
  skills ≡ₚ skills' -> total_weight skills job g = total_weight skills' job g.
Proof.
  intros Hp. destruct (g !! job) as [vj|] eqn:Ej.
  - rewrite !total_weight_run by eauto. by rewrite (tw_of_perm skills skills' job g Hp).
  - induction Hp as [|x l l' Hp IH|x y l|l l' l'' Hp IH Hp' IH'].
    + done.
    + rewrite !total_weight_cons, !get_weight_no_job by done.
      by destruct (has_vertex_helper x g).
    + rewrite !total_weight_cons, !get_weight_no_job by done.
      by destruct (has_vertex_helper x g), (has_vertex_helper y g).
    + by rewrite IH, IH'.
Qed.

Lemma for_in_cons {A S} (x : A) (l : list A) (body : A -> S -> M S) (acc : S) g :
  for_in (x :: l) body acc g
  = match body x acc g with
    | (Ok acc', g') => for_in l body acc' g'
    | (Raise e, g') => (Raise e, g')
    end.
Proof. reflexivity. Qed.

Lemma score_job_perm skills skills' job acc g :
  skills ≡ₚ skills' -> score_job skills job acc g = score_job skills' job acc g.
Proof.
  intros Hp. unfold score_job, bind. by rewrite (total_weight_perm skills skills' job g Hp).
Qed.

Lemma for_in_score_job_perm skills skills' (ids : list string) acc g :
  skills ≡ₚ skills' ->
  for_in ids (score_job skills) acc g = for_in ids (score_job skills') acc g.
Proof.
  intros Hp. revert acc g. induction ids as [|job ids IH]; intros acc g; [done|].
  rewrite !for_in_cons, (score_job_perm skills skills' job acc g Hp).
  destruct (score_job skills' job acc g) as [[acc'|e] g1]; [apply IH|done].
Qed.

Lemma recommend_jobs_perm I skills skills' limit g :
  skills ≡ₚ skills' ->
  recommend_jobs I skills limit g = recommend_jobs I skills' limit g.
Proof.
  intros Hp. unfold recommend_jobs. unfold bind at 1 3. simpl. unfold bind.
  by rewrite (for_in_score_job_perm skills skills' _ [] g Hp).
Qed.

End Reorder.

(** C6.  Re-ordering the skill list while its first skill stays first changes
    neither the graph [build_graph] returns (or the exception it raises) nor
    the list [recommend_jobs] returns on it, the job set being iterated in
    the same order. *)
Theorem reorder_skills (I : SetIter) (skills skills' : list string) (jobs : list posting)
    (limit : Z) :
  skills ≡ₚ skills' -> head skills = head skills' ->
  build_graph skills jobs = build_graph skills' jobs
  /\ forall g, recommend_jobs I skills limit g = recommend_jobs I skills' limit g.
Proof.
  intros Hp Hh. split; [by apply build_graph_perm|].
  intros g. by apply recommend_jobs_perm.
Qed.

Lemma reorder_skills_witness :
  build_graph ["java"; "python"; "go"] jobs_ex = build_graph ["java"; "go"; "python"] jobs_ex
  /\ forall g, recommend_jobs iter_elements ["java"; "python"; "go"] 5 g
               = recommend_jobs iter_elements ["java"; "go"; "python"] 5 g.
Proof.
  apply (reorder_skills iter_elements ["java"; "python"; "go"] ["java"; "go"; "python"]
           jobs_ex 5).
  - apply perm_skip, perm_swap.
  - reflexivity.
Defined.

(** C6, as stated, fails when the re-ordering changes the first skill: the
    fallback vertex is joined to the first skill only, and here that skill
    counts twice in the sum. *)
Lemma reorder_skills_first_changes :
  ["java"; "python"; "java"] ≡ₚ ["python"; "java"; "java"]
  /\ (forall I, run_search I ["java"; "python"; "java"] [java_job] 5
                = Ok [("Dev at Acme [Low Match]", 2); ("Dev at Acme", 1)])
  /\ (forall I, run_search I ["python"; "java"; "java"] [java_job] 5
                = Ok [("Dev at Acme [Low Match]", 1); ("Dev at Acme", 1)])
  /\ [("Dev at Acme [Low Match]", 2); ("Dev at Acme", 1)]
     <> [("Dev at Acme [Low Match]", 1); ("Dev at Acme", 1)].
Proof.
  split; [apply perm_swap|].
  split; [|split; [|done]]; intros I; rewrite run_search_any_order;
    try (by vm_compute); try (repeat constructor; vm_compute; eauto); vm_compute; lia.
Qed.

(** ** Where edges can end *)

Section Targets.

Implicit Types (g : WeightedGraph) (skills : list string) (jobs : list posting)
  (T : gset string).

Lemma targets_in_add_vertex_st T it kd g :
  targets_in T g -> targets_in T (add_vertex_st it kd g).
Proof.
  intros Hg k v n H. apply add_vertex_st_lookup in H as [H|(-> & _ & ->)]; [by eauto|].
  simpl. rewrite lookup_empty. by intros [? ?].
Qed.

Lemma targets_in_link T a j w g :
  a ∈ T -> j ∈ T -> targets_in T g -> targets_in T (link a j w g).
Proof.
  intros Ha Hj Hg k v n. rewrite lookup_link.
  destruct (g !! k) as [v0|] eqn:E; [|done]. simpl. intros [= <-].
  pose proof (Hg k v0 n E).
  repeat case_decide; simpl; rewrite ?lookup_insert_is_Some';
    intros; destruct_or?; subst; auto.
Qed.

Lemma targets_in_skills_st T skills : targets_in T (skills_st skills ∅).
Proof.
  intros k v n H. apply skills_st_lookup in H as [H|[_ ->]]; [done|].
  simpl. rewrite lookup_empty. by intros [? ?].
Qed.

Lemma match_total_mono content skills acc : acc <= match_total content skills acc.
Proof.
  unfold match_total. revert acc. induction skills as [|s skills IH]; intros acc; simpl.
  - lia.
  - etrans; [|apply IH]. case_match; [|lia].
    match goal with H : (0 <? _) = true |- _ => apply Z.ltb_lt in H end. lia.
Qed.

Lemma match_total_pos content skills acc s :
  s ∈ skills -> 0 < str_count content (lower s) -> acc < match_total content skills acc.
Proof.
  unfold match_total. revert acc. induction skills as [|x skills IH]; intros acc Hin Hc.
  - by apply elem_of_nil in Hin.
  - simpl. apply elem_of_cons in Hin as [->|Hin].
    + apply Z.ltb_lt in Hc as Hc'. rewrite Hc'.
      eapply Z.lt_le_trans; [|apply match_total_mono]. lia.
    + eapply Z.le_lt_trans; [|by apply IH]. case_match; [|lia].
      match goal with H : (0 <? _) = true |- _ => apply Z.ltb_lt in H end. lia.
Qed.

Lemma targets_in_match_fold T content j sub g :
  (forall s, s ∈ sub -> lower s ∈ T) ->
  (forall s, s ∈ sub -> 0 < str_count content (lower s) -> j ∈ T) ->
  targets_in T g -> targets_in T (foldl (match_step content j) g sub).
Proof.
  revert g. induction sub as [|s sub IH]; intros g Hs Hj Hg; [done|]. simpl.
  apply IH.
  - intros x Hx. apply Hs. by right.
  - intros x Hx. apply Hj. by right.
  - unfold match_step. destruct (0 <? str_count content (lower s)) eqn:E; [|done].
    apply Z.ltb_lt in E. apply targets_in_link; [|by eauto using list_elem_of_here|done].
    apply Hs. by left.
Qed.

Lemma targets_in_add_job T skills g job :
  (forall s, s ∈ skills -> lower s ∈ T) ->
  (0 < match_total (content_of job) skills 0 -> job_id_of job ∈ T) ->
  (match_total (content_of job) skills 0 = 0 ->
   (job_id_of job ++ low_match_suffix)%string ∈ T) ->
  targets_in T g -> targets_in T (add_job_st skills g job).
Proof.
  intros Hs Hpos Hzero Hg. unfold add_job_st.
  assert (targets_in T (foldl (match_step (content_of job) (job_id_of job))
                          (add_vertex_st (job_id_of job) "job" g) skills)) as H2.
  { apply targets_in_match_fold; [done| |by apply targets_in_add_vertex_st].
    intros s Hin Hc. apply Hpos. by apply (match_total_pos _ _ 0 s). }
  destruct skills as [|s0 skills]; [done|].
  destruct (Z.eqb_spec (match_total (content_of job) (s0 :: skills) 0) 0) as [Hz|]; [|done].
  apply targets_in_link; [apply Hs; by left|by apply Hzero|].
  by apply targets_in_add_vertex_st.
Qed.

Lemma targets_in_build_st T skills jobs :
  (forall s, s ∈ skills -> lower s ∈ T) ->
  (forall job, job ∈ jobs -> 0 < match_total (content_of job) skills 0 -> job_id_of job ∈ T) ->
  (forall job, job ∈ jobs -> match_total (content_of job) skills 0 = 0 ->
               (job_id_of job ++ low_match_suffix)%string ∈ T) ->
  targets_in T (build_st skills jobs).
Proof.
  intros Hs. unfold build_st. generalize (targets_in_skills_st T skills).
  generalize (skills_st skills ∅).
  induction jobs as [|job jobs IH]; intros g Hg Hpos Hzero; [done|]. simpl.
  apply IH.
  - apply targets_in_add_job; auto using list_elem_of_here.
  - intros x Hx. apply Hpos. by right.
  - intros x Hx. apply Hzero. by right.
Qed.

Lemma weight_of_no_target T g s job :
  targets_in T g -> job ∉ T -> weight_of s job g = 0.
Proof.
  intros Hg Hj. unfold weight_of. destruct (g !! s) as [v|] eqn:E; [|done]. simpl.
  destruct (neighbours v !! job) eqn:En; [|done]. destruct Hj. apply (Hg s v). all: eauto.
Qed.

Lemma tw_of_no_target T g skills job :
  targets_in T g -> job ∉ T -> tw_of skills job g = 0.
Proof.
  intros Hg Hj. induction skills as [|s skills IH]; [done|]. simpl.
  rewrite IH, (weight_of_no_target T) by done. by case_match.
Qed.

End Targets.

(** ** Two matching postings and one without a match *)

Section ThreePostings.

Implicit Types (g : WeightedGraph) (skills : list string) (jobs : list posting).

Lemma recommend_jobs_all I skills limit g :
  keyed g -> Z.of_nat (size (get_all_vertices "job" g)) <= limit ->
  exists out, recommend_jobs I skills limit g = (Ok out, g)
    /\ out.*1 ≡ₚ elements (get_all_vertices "job" g)
    /\ forall job, job ∈ get_all_vertices "job" g -> tw_of skills job g <= 0 ->
                   (job, 1) ∈ out.
Proof.
  intros Hg Hl. eexists. split; [by apply recommend_jobs_run|].
  set (ids := iter I (get_all_vertices "job" g)).
  assert (length ids = size (get_all_vertices "job" g)) as Hlen.
  { unfold ids. by rewrite (iter_perm I). }
  rewrite take_ge.
  2:{ rewrite length_ranking, Hlen. unfold cut. destruct (Z.leb_spec 0 limit); lia. }
  split.
  - rewrite ranking_labels. apply iter_perm.
  - intros job Hj Ht. unfold ranking. apply elem_of_app. right.
    apply list_elem_of_fmap. exists job. split; [done|].
    apply list_elem_of_filter. split; [|by apply elem_of_iter].
    rewrite elem_of_kept_labels. lia.
Qed.

Lemma job_labels_pos skills job :
  0 < match_total (content_of job) skills 0 -> job_labels skills job = [job_id_of job].
Proof.
  intros Hpos. unfold job_labels. destruct skills; [done|].
  by destruct (Z.eqb_spec (match_total (content_of job) (s :: skills) 0) 0); [lia|].
Qed.

Lemma job_labels_zero skills job :
  skills <> [] -> match_total (content_of job) skills 0 = 0 ->
  job_labels skills job = [job_id_of job; (job_id_of job ++ low_match_suffix)%string].
Proof.
  intros Hne Hz. unfold job_labels. destruct skills; [done|]. by rewrite Hz.
Qed.

End ThreePostings.

(** C3.  With a non-empty skill list, two postings with a strictly positive
    occurrence total and a third with no occurrence of any skill, whose three
    labels and the third's fallback label are four different strings, none
    of them a lower-cased skill, the graph has four job vertices and
    [recommend_jobs] with limit 5 returns exactly 4 entries, one for each:
    the fallback twin of the third posting is among them, and the third
    posting itself, whose computed score is 0, is appended by the second
    loop with score 1. *)
Theorem two_matches_one_miss (I : SetIter) (skills : list string) (jobs : list posting)
    (p1 p2 p3 : posting) :
  let l1 := job_id_of p1 in
  let l2 := job_id_of p2 in
  let l3 := job_id_of p3 in
  let twin := (l3 ++ low_match_suffix)%string in
  skills <> [] -> jobs ≡ₚ [p1; p2; p3] -> Forall well_formed [p1; p2; p3] ->
  0 < match_total (content_of p1) skills 0 ->
  0 < match_total (content_of p2) skills 0 ->
  match_total (content_of p3) skills 0 = 0 ->
  NoDup [l1; l2; l3; twin] ->
  Forall (fun l => l ∉ lower <$> skills) [l1; l2; l3; twin] ->
  exists g out,
    build_graph skills jobs = Ok g
    /\ recommend_jobs I skills 5 g = (Ok out, g)
    /\ length out = 4%nat
    /\ out.*1 ≡ₚ [l1; l2; l3; twin]
    /\ total_weight skills l3 g = (Ok 0, g)
    /\ (l3, 1) ∈ out.
Proof.
  intros l1 l2 l3 twin Hne Hp Hw H1 H2 H3 Hnd Hns.
  assert (Forall well_formed jobs) as Hwj by (by rewrite Hp).
  exists (build_st skills jobs).
  pose proof (built_build_st skills jobs) as Hb.
  set (g := build_st skills jobs) in *.
  assert (jobs ≫= job_labels skills ≡ₚ [l1; l2; l3; twin]) as Hlabels.
  { rewrite Hp, !bind_cons.
    by rewrite !job_labels_pos, job_labels_zero by done. }
  assert (get_all_vertices "job" g = list_to_set [l1; l2; l3; twin]) as Hjobs.
  { rewrite (job_vertices_built skills g Hb). unfold g.
    rewrite dom_build_st, (list_to_set_perm_L _ _ Hlabels).
    rewrite !Forall_cons in Hns. set_solver. }
  assert (elements (get_all_vertices "job" g) ≡ₚ [l1; l2; l3; twin]) as Hel.
  { rewrite Hjobs. by apply elements_list_to_set. }
  assert (tw_of skills l3 g = 0) as Ht3.
  { apply (tw_of_no_target (list_to_set (lower <$> skills) ∪ {[l1; l2; twin]})).
    - apply targets_in_build_st.
      + intros s Hs. apply elem_of_union_l, elem_of_list_to_set. by apply list_elem_of_fmap_2.
      + intros job Hj Hpos. rewrite Hp in Hj.
        repeat (apply elem_of_cons in Hj as [->|Hj]); [set_solver|set_solver|lia|].
        by apply elem_of_nil in Hj.
      + intros job Hj Hz. rewrite Hp in Hj.
        repeat (apply elem_of_cons in Hj as [->|Hj]); [lia|lia|set_solver|].
        by apply elem_of_nil in Hj.
    - rewrite !Forall_cons in Hns. rewrite !NoDup_cons in Hnd. set_solver. }
  destruct (recommend_jobs_all I skills 5 g) as (out & Hrun & Hout & Hfill).
  { apply Hb. }
  { unfold size, set_size. simpl. rewrite Hel. simpl. lia. }
  assert (l3 ∈ get_all_vertices "job" g) as Hl3 by (rewrite Hjobs; set_solver).
  exists out. split; [by apply build_graph_run|]. split; [done|].
  split; [by rewrite <- (length_fmap fst out), Hout, Hel|].
  split; [by rewrite Hout|].
  split.
  - rewrite <- Ht3. apply total_weight_run.
    apply elem_of_job_vertices in Hl3 as (v & Hv & _); [by eauto|apply Hb].
  - apply Hfill; [done|lia].
Qed.

Lemma two_matches_one_miss_witness :
  exists g out,
    build_graph ["python"] [job_a; job_b; job_c] = Ok g
    /\ recommend_jobs iter_elements ["python"] 5 g = (Ok out, g)
    /\ length out = 4%nat
    /\ out.*1 ≡ₚ [job_id_of job_a; job_id_of job_b; job_id_of job_c;
                  (job_id_of job_c ++ low_match_suffix)%string]
    /\ total_weight ["python"] (job_id_of job_c) g = (Ok 0, g)
    /\ (job_id_of job_c, 1) ∈ out.
Proof.
  apply (two_matches_one_miss iter_elements ["python"] [job_a; job_b; job_c]
           job_a job_b job_c).
  - discriminate.
  - reflexivity.
  - repeat constructor; vm_compute; eauto.
  - vm_compute. reflexivity.
  - vm_compute. reflexivity.
  - vm_compute. reflexivity.
  - apply (bool_decide_unpack _). vm_compute. exact I.
  - apply (bool_decide_unpack _). vm_compute. exact I.
Defined.

(** C3, as stated, fails: the posting without a match has a fallback twin,
    which is a fourth entry. *)
Lemma two_matches_one_miss_four_entries :
  (0 < match_total (content_of job_a) ["python"] 0
   /\ 0 < match_total (content_of job_b) ["python"] 0
   /\ match_total (content_of job_c) ["python"] 0 = 0)
  /\ (forall I, run_search I ["python"] [job_a; job_b; job_c] 5
                = Ok [("B at X", 2); ("A at X", 1); ("C at X [Low Match]", 1); ("C at X", 1)])
  /\ length [("B at X", 2); ("A at X", 1); ("C at X [Low Match]", 1); ("C at X", 1)] = 4%nat.
Proof.
  split; [by vm_compute|]. split; [|done]. intros I. rewrite run_search_any_order.
  - by vm_compute.
  - repeat constructor; vm_compute; eauto.
  - vm_compute. lia.
Qed.

(** * Further properties of the graph *)

Section GraphMore.

Implicit Types (g : WeightedGraph) (cs : list call).

Lemma get_weight_link_same item1 item2 weight g :
  is_Some (g !! item1) -> is_Some (g !! item2) ->
  get_weight item1 item2 (link item1 item2 weight g)
  = (Ok weight, link item1 item2 weight g).
Proof.
  intros [v1 H1] H2.
  assert (exists v, link item1 item2 weight g !! item1 = Some v
                    /\ neighbours v !! item2 = Some weight) as (v & Hv & Hn).
  { rewrite lookup_link, H1. simpl. eexists. split; [reflexivity|].
    repeat case_decide; subst; simpl; try done; by simplify_map_eq. }
  rewrite (get_weight_run _ item1 item2 v Hv) by (by apply link_is_Some).
  by rewrite Hn.
Qed.

Lemma link_swap_weight item1 item2 weight g c d :
  weight_of c d (link item1 item2 weight g) = weight_of c d (link item2 item1 weight g).
Proof.
  unfold weight_of. rewrite !lookup_link. destruct (g !! c) as [v|]; [|done]. simpl.
  repeat case_decide; subst; simpl; try done;
    rewrite !lookup_insert; repeat case_decide; congruence.
Qed.

Lemma get_weight_outcome c d g :
  (get_weight c d g).1
  = if bool_decide (is_Some (g !! c) /\ is_Some (g !! d))
    then Ok (weight_of c d g) else Raise KeyError.
Proof.
  unfold get_weight, weight_of. case_bool_decide as H.
  - destruct H as [[vc Hc] [vd Hd]]. by rewrite Hc, Hd.
  - destruct (g !! c) eqn:Ec; [|done]. destruct (g !! d) eqn:Ed; [|done].
    destruct H; eauto.
Qed.

Lemma weight_of_link_other item1 item2 weight g c d :
  ~ (c = item1 /\ d = item2) -> ~ (c = item2 /\ d = item1) ->
  weight_of c d (link item1 item2 weight g) = weight_of c d g.
Proof.
  intros H1 H2. unfold weight_of. rewrite lookup_link.
  destruct (g !! c) as [v|]; [|done]. simpl.
  repeat case_decide; subst; simpl; try done;
    rewrite ?lookup_insert_ne; try done; intros ->; tauto.
Qed.

End GraphMore.

(** X1.  After a successful [add_edge item1 item2 weight], [get_weight]
    returns [weight] in both directions, whatever weight the pair had
    before. *)
Theorem add_edge_then_get_weight (g : WeightedGraph) (item1 item2 : string) (weight : Z) :
  is_Some (g !! item1) -> is_Some (g !! item2) ->
  exists g', add_edge item1 item2 weight g = (Ok tt, g')
    /\ get_weight item1 item2 g' = (Ok weight, g')
    /\ get_weight item2 item1 g' = (Ok weight, g').
Proof.
  intros H1 H2. exists (link item1 item2 weight g).
  split; [by apply add_edge_run|]. split; [by apply get_weight_link_same|].
  pose proof (get_weight_link_same item2 item1 weight g H2 H1) as Hs.
  pose proof (get_weight_ok _ _ _ _ _ Hs) as [_ Hw].
  pose proof (get_weight_state item2 item1 (link item1 item2 weight g)) as Hst.
  pose proof (get_weight_outcome item2 item1 (link item1 item2 weight g)) as Ho.
  rewrite bool_decide_eq_true_2 in Ho by (split; by apply link_is_Some).
  destruct (get_weight item2 item1 (link item1 item2 weight g)) as [o g1].
  simpl in *. subst. by rewrite link_swap_weight, <- Hw.
Qed.

Lemma add_edge_then_get_weight_witness :
  exists g', add_edge "python" "Job A" 9 (run_calls calls_ex ∅) = (Ok tt, g')
    /\ get_weight "python" "Job A" g' = (Ok 9, g')
    /\ get_weight "Job A" "python" g' = (Ok 9, g').
Proof.
  apply (add_edge_then_get_weight (run_calls calls_ex ∅) "python" "Job A" 9);
    vm_compute; eauto.
Defined.

(** X2.  A successful [add_edge item1 item2 weight] changes nothing else: the
    vertices are the same, and [get_weight] has the same outcome as before
    for every other ordered pair. *)
Theorem add_edge_frame (g : WeightedGraph) (item1 item2 : string) (weight : Z)
    (c d : string) :
  is_Some (g !! item1) -> is_Some (g !! item2) ->
  ~ (c = item1 /\ d = item2) -> ~ (c = item2 /\ d = item1) ->
  let g' := (add_edge item1 item2 weight g).2 in
  dom g' = dom g /\ (get_weight c d g').1 = (get_weight c d g).1.
Proof.
  intros H1 H2 Hn1 Hn2. rewrite add_edge_run by done. simpl. split.
  - unfold link. by rewrite !dom_alter_L.
  - rewrite !get_weight_outcome, weight_of_link_other by done.
    by rewrite (bool_decide_ext _ (is_Some (g !! c) /\ is_Some (g !! d)))
      by (by rewrite !link_is_Some).
Qed.

Lemma add_edge_frame_witness :
  let g := run_calls (AddVertex "java" "skill" :: calls_ex) ∅ in
  let g' := (add_edge "java" "Job A" 4 g).2 in
  dom g' = dom g /\ (get_weight "python" "Job A" g').1 = (get_weight "python" "Job A" g).1.
Proof.
  intros g.
  apply (add_edge_frame g "java" "Job A" 4 "python" "Job A");
    try (vm_compute; eauto; fail); by intros [? ?].
Defined.

Section CallsMore.

Implicit Types (g : WeightedGraph) (cs : list call).

Lemma do_call_keeps c g x v :
  g !! x = Some v ->
  exists v', (do_call c g).2 !! x = Some v' /\ item v' = item v /\ kind v' = kind v
             /\ dom (neighbours v) ⊆ dom (neighbours v').
Proof.
  intros Hx. destruct c as [it k|item1 item2 weight]; simpl.
  - rewrite add_vertex_run. simpl. exists v. split; [|done].
    unfold add_vertex_st. destruct (g !! it) eqn:E; [done|].
    rewrite lookup_insert_ne; [done|]. intros ->. congruence.
  - unfold add_edge. destruct (g !! item1) eqn:E1; [destruct (g !! item2) eqn:E2|];
      simpl; try (exists v; done).
    rewrite lookup_link, Hx. simpl. eexists. split; [reflexivity|].
    repeat case_decide; simpl; rewrite ?dom_insert_L; set_solver.
Qed.

Lemma run_calls_keeps cs g x v :
  g !! x = Some v ->
  exists v', run_calls cs g !! x = Some v' /\ item v' = item v /\ kind v' = kind v
             /\ dom (neighbours v) ⊆ dom (neighbours v').
Proof.
  revert g v. induction cs as [|c cs IH]; intros g v Hx; simpl.
  - exists v. done.
  - destruct (do_call_keeps c g x v Hx) as (v1 & H1 & Hi1 & Hk1 & Hn1).
    destruct (IH _ _ H1) as (v2 & H2 & Hi2 & Hk2 & Hn2).
    exists v2. rewrite Hi2, Hk2. repeat split; try done. set_solver.
Qed.

Lemma run_calls_kind cs g x :
  kind <$> run_calls cs g !! x
  = match g !! x with
    | Some v => Some (kind v)
    | None => first_kind cs x
    end.
Proof.
  revert g. induction cs as [|c cs IH]; intros g; simpl.
  - by destruct (g !! x).
  - rewrite IH. destruct c as [it k|item1 item2 weight]; simpl.
    + rewrite add_vertex_run. simpl. unfold add_vertex_st, first_kind. simpl.
      destruct (decide (it = x)) as [->|Hne].
      * destruct (g !! x) eqn:E; rewrite ?E, ?lookup_insert_eq; done.
      * destruct (g !! it) eqn:E; rewrite ?lookup_insert_ne by done; done.
    + unfold first_kind. simpl. fold (first_kind cs x).
      unfold add_edge.
      destruct (g !! item1) eqn:E1; [destruct (g !! item2) eqn:E2|]; simpl; try done.
      rewrite lookup_link. by destruct (g !! x); simpl; repeat case_decide.
Qed.

Lemma run_calls_keyed cs : keyed (run_calls cs ∅).
Proof. apply (run_calls_sound cs ∅ sound_empty). Qed.

End CallsMore.

(** X3.  No call of [add_vertex] or [add_edge] removes a vertex, changes the
    kind of a vertex or removes one of its edges. *)
Theorem calls_keep_vertices (cs : list call) (g : WeightedGraph) (x : string)
    (v : WeightedVertex) :
  g !! x = Some v ->
  exists v', run_calls cs g !! x = Some v' /\ kind v' = kind v
             /\ dom (neighbours v) ⊆ dom (neighbours v').
Proof.
  intros Hx. destruct (run_calls_keeps cs g x v Hx) as (v' & ? & _ & ? & ?). eauto.
Qed.

Lemma calls_keep_vertices_witness :
  exists v', run_calls calls_ex (run_calls [AddVertex "Job A" "job"] ∅) !! "Job A" = Some v'
             /\ kind v' = kind (mkVertex "Job A" "job" ∅)
             /\ dom (neighbours (mkVertex "Job A" "job" ∅)) ⊆ dom (neighbours v').
Proof.
  apply (calls_keep_vertices calls_ex (run_calls [AddVertex "Job A" "job"] ∅) "Job A"
           (mkVertex "Job A" "job" ∅)).
  vm_compute. reflexivity.
Defined.

(** X4.  In a graph reached from the empty one, the kind of an item is the
    kind of its first [add_vertex]: [get_all_vertices(kind)] holds exactly
    the items first added with that kind, [get_all_vertices()] and
    [has_vertex_helper] exactly the items added at all. *)
Theorem vertices_by_first_kind (cs : list call) (k x : string) :
  let g := run_calls cs ∅ in
  (k <> "" -> x ∈ get_all_vertices k g <-> first_kind cs x = Some k)
  /\ (x ∈ get_all_vertices "" g <-> is_Some (first_kind cs x))
  /\ (has_vertex_helper x g = true <-> is_Some (first_kind cs x)).
Proof.
  intros g. pose proof (run_calls_kind cs ∅ x) as Hk. rewrite lookup_empty in Hk.
  fold g in Hk. pose proof (run_calls_keyed cs) as Hkeyed. fold g in Hkeyed.
  assert (is_Some (g !! x) <-> is_Some (first_kind cs x)) as Hs.
  { rewrite <- Hk. by rewrite fmap_is_Some. }
  split; [|split].
  - intros Hne. rewrite elem_of_get_all_vertices by done. rewrite <- Hk. split.
    + intros (key & v & Hv & Hkind & Hitem). rewrite (Hkeyed key v Hv) in Hitem. subst key.
      by rewrite Hv; simpl; rewrite Hkind.
    + destruct (g !! x) as [v|] eqn:Hv; [|done]. simpl. intros [= Hkind].
      exists x, v. split; [done|]. split; [done|]. by apply Hkeyed.
  - unfold get_all_vertices. rewrite decide_True by done. by rewrite elem_of_dom.
  - unfold has_vertex_helper. by rewrite bool_decide_eq_true.
Qed.

(** * Further properties of build_graph *)

Section BuildMore.

Implicit Types (g : WeightedGraph) (skills : list string) (jobs : list posting).

Lemma for_in_add_job_raise skills jobs g :
  Exists (fun job => ~ well_formed job) jobs -> has_skills skills g ->
  (for_in jobs (add_job skills) tt g).1 = Raise KeyError.
Proof.
  intros Hex. revert g. induction jobs as [|job jobs IH]; intros g Hs.
  - by apply Exists_nil in Hex.
  - rewrite for_in_cons. destruct (decide (well_formed job)) as [Hw|Hw].
    + rewrite add_job_run by done. apply IH; [|by apply add_job_st_has_skills].
      apply Exists_cons in Hex as [?|?]; [done|done].
    + by rewrite add_job_raise.
Qed.

Lemma build_graph_raise skills jobs :
  Exists (fun job => ~ well_formed job) jobs -> build_graph skills jobs = Raise KeyError.
Proof.
  intros Hex. unfold build_graph, build_graph_body, bind. rewrite for_in_add_skills.
  pose proof (for_in_add_job_raise skills jobs (skills_st skills ∅) Hex
                (skills_st_has_skills skills ∅)) as Hr.
  destruct (for_in jobs (add_job skills) tt (skills_st skills ∅)) as [[[]|e] g1];
    simpl in Hr; congruence.
Qed.

Lemma build_graph_ok_inv skills jobs g :
  build_graph skills jobs = Ok g -> Forall well_formed jobs /\ g = build_st skills jobs.
Proof.
  intros Hb. destruct (decide (Forall well_formed jobs)) as [Hw|Hw].
  - split; [done|]. rewrite build_graph_run in Hb by done. congruence.
  - apply not_Forall_Exists in Hw; [|apply _].
    rewrite build_graph_raise in Hb; [done|].
    eapply Exists_impl; [exact Hw|]. done.
Qed.

Lemma weights_pos_add_vertex_st it kd g :
  weights_pos g -> weights_pos (add_vertex_st it kd g).
Proof.
  intros Hg k v n w H. apply add_vertex_st_lookup in H as [H|(-> & _ & ->)]; [by eauto|].
  simpl. by rewrite lookup_empty.
Qed.

Lemma weights_pos_link a j w0 g :
  1 <= w0 -> weights_pos g -> weights_pos (link a j w0 g).
Proof.
  intros Hw Hg k v n w. rewrite lookup_link.
  destruct (g !! k) as [v0|] eqn:E; [|done]. simpl. intros [= <-].
  pose proof (Hg k v0 n w E).
  repeat case_decide; simpl; rewrite ?lookup_insert; repeat case_decide;
    intros; simplify_eq; auto.
Qed.

Lemma weights_pos_match_fold content j sub g :
  weights_pos g -> weights_pos (foldl (match_step content j) g sub).
Proof.
  revert g. induction sub as [|s sub IH]; intros g Hg; [done|]. simpl. apply IH.
  unfold match_step. destruct (Z.ltb_spec 0 (str_count content (lower s))); [|done].
  apply weights_pos_link; [lia|done].
Qed.

Lemma weights_pos_add_job skills g job :
  weights_pos g -> weights_pos (add_job_st skills g job).
Proof.
  intros Hg. unfold add_job_st.
  assert (weights_pos (foldl (match_step (content_of job) (job_id_of job))
                         (add_vertex_st (job_id_of job) "job" g) skills)) as H2.
  { by apply weights_pos_match_fold, weights_pos_add_vertex_st. }
  destruct skills as [|s0 skills]; [done|]. case_match; [|done].
  apply weights_pos_link; [lia|]. by apply weights_pos_add_vertex_st.
Qed.

Lemma weights_pos_build_st skills jobs : weights_pos (build_st skills jobs).
Proof.
  unfold build_st.
  assert (weights_pos (skills_st skills ∅)) as H0.
  { intros k v n w H. apply skills_st_lookup in H as [H|[_ ->]]; [done|].
    simpl. by rewrite lookup_empty. }
  revert H0. generalize (skills_st skills ∅).
  induction jobs as [|job jobs IH]; intros g Hg; [done|]. simpl.
  by apply IH, weights_pos_add_job.
Qed.

Lemma sound_add_vertex_st it kd g : sound g -> sound (add_vertex_st it kd g).
Proof.
  intros (Hk & Hc & Hm). split; [|split];
    eauto using add_vertex_st_keyed, add_vertex_st_closed, add_vertex_st_mirrored.
Qed.

Lemma sound_link a j w g :
  is_Some (g !! a) -> is_Some (g !! j) -> sound g -> sound (link a j w g).
Proof.
  intros Ha Hj (Hk & Hc & Hm). split; [|split];
    eauto using link_keyed, link_closed, link_mirrored.
Qed.

Lemma sound_match_fold content j sub g :
  is_Some (g !! j) -> (forall s, s ∈ sub -> is_Some (g !! lower s)) ->
  sound g -> sound (foldl (match_step content j) g sub).
Proof.
  revert g. induction sub as [|s sub IH]; intros g Hj Hs Hg; [done|]. simpl.
  assert (is_Some (g !! lower s)) as Hls by (apply Hs; by left).
  apply IH.
  - by apply match_step_is_Some.
  - intros x Hx. apply match_step_is_Some, Hs. by right.
  - unfold match_step. case_match; [|done]. by apply sound_link.
Qed.

Lemma sound_add_job skills g job :
  has_skills skills g -> sound g -> sound (add_job_st skills g job).
Proof.
  intros Hs Hg. unfold add_job_st.
  set (g1 := add_vertex_st (job_id_of job) "job" g).
  assert (is_Some (g1 !! job_id_of job)) as Hj by (apply add_vertex_st_is_Some; by left).
  assert (forall s, s ∈ skills -> is_Some (g1 !! lower s)) as Hs1.
  { intros s Hin. apply add_vertex_st_is_Some. right. by apply Hs. }
  assert (sound (foldl (match_step (content_of job) (job_id_of job)) g1 skills)) as H2.
  { apply sound_match_fold; [done|done|]. by apply sound_add_vertex_st. }
  destruct skills as [|s0 skills]; [done|]. case_match; [|done].
  apply sound_link.
  - apply add_vertex_st_is_Some. right. apply foldl_match_step_is_Some, Hs1. by left.
  - apply add_vertex_st_is_Some. by left.
  - by apply sound_add_vertex_st.
Qed.

Lemma sound_build_st skills jobs : sound (build_st skills jobs).
Proof.
  unfold build_st.
  assert (sound (skills_st skills ∅)) as H0.
  { unfold skills_st. generalize sound_empty. generalize (∅ : WeightedGraph).
    induction skills as [|s skills IH]; intros g Hg; [done|]. simpl.
    by apply IH, sound_add_vertex_st. }
  pose proof (skills_st_has_skills skills ∅) as Hs. revert H0 Hs.
  generalize (skills_st skills ∅).
  induction jobs as [|job jobs IH]; intros g Hg Hs; [done|]. simpl.
  apply IH; [by apply sound_add_job|by apply add_job_st_has_skills].
Qed.

End BuildMore.

(** X5.  [build_graph] raises [KeyError] as soon as one posting lacks [role]
    or [company_name]. *)
Theorem build_graph_missing_key (skills : list string) (jobs : list posting) :
  Exists (fun job => job !! "role" = None \/ job !! "company_name" = None) jobs ->
  build_graph skills jobs = Raise KeyError.
Proof.
  intros Hex. apply build_graph_raise. eapply Exists_impl; [exact Hex|].
  intros job [H|H] [[? Hr] [? Hc]]; congruence.
Qed.

Lemma build_graph_missing_key_witness :
  build_graph ["python"] [job_a; <["role" := "Dev"]> ∅; job_b] = Raise KeyError.
Proof.
  apply (build_graph_missing_key ["python"] [job_a; <["role" := "Dev"]> ∅; job_b]).
  apply Exists_cons_tl, Exists_cons_hd. right. vm_compute. reflexivity.
Defined.

(** X6.  In the graph [build_graph] returns, the skill vertices are exactly
    the lower-cased skills, and the job vertices are the labels of the
    postings, with the "[Low Match]" label of each posting that matched no
    skill of a non-empty skill list, except the labels that are also a
    lower-cased skill. *)
Theorem build_graph_vertices (skills : list string) (jobs : list posting) (g : WeightedGraph) :
  build_graph skills jobs = Ok g ->
  get_all_vertices "skill" g = list_to_set (lower <$> skills)
  /\ get_all_vertices "job" g
     = list_to_set (jobs ≫= job_labels skills) ∖ list_to_set (lower <$> skills)
  /\ get_all_vertices "" g
     = list_to_set (lower <$> skills) ∪ list_to_set (jobs ≫= job_labels skills).
Proof.
  intros Hb. pose proof (build_graph_built _ _ _ Hb) as Hg.
  apply build_graph_ok_inv in Hb as [_ ->].
  split; [by apply skill_vertices_built|]. split.
  - rewrite (job_vertices_built skills) by done. rewrite dom_build_st. set_solver.
  - unfold get_all_vertices. rewrite decide_True by done. apply dom_build_st.
Qed.

Lemma build_graph_vertices_witness :
  let g := build_st ["Python"] jobs_ex in
  get_all_vertices "skill" g = list_to_set (lower <$> ["Python"])
  /\ get_all_vertices "job" g
     = list_to_set (jobs_ex ≫= job_labels ["Python"]) ∖ list_to_set (lower <$> ["Python"])
  /\ get_all_vertices "" g
     = list_to_set (lower <$> ["Python"]) ∪ list_to_set (jobs_ex ≫= job_labels ["Python"]).
Proof.
  intros g. apply (build_graph_vertices ["Python"] jobs_ex g). by vm_compute.
Defined.

(** X7.  In the graph [build_graph] returns, [get_weight] returns 0 or a
    weight of at least 1; a weight other than 0 joins a skill vertex to
    another vertex, never two job vertices, and is read the same in both
    directions. *)
Theorem build_graph_edges (skills : list string) (jobs : list posting) (g : WeightedGraph)
    (a b : string) (w : Z) :
  build_graph skills jobs = Ok g -> get_weight a b g = (Ok w, g) ->
  0 <= w
  /\ (w <> 0 -> 1 <= w
      /\ (a ∈ get_all_vertices "skill" g \/ b ∈ get_all_vertices "skill" g)
      /\ get_weight b a g = (Ok w, g)).
Proof.
  intros Hb Hw. pose proof (build_graph_built _ _ _ Hb) as Hg.
  pose proof Hb as [_ Hst]%build_graph_ok_inv.
  pose proof (weights_pos_build_st skills jobs) as Hpos. rewrite <- Hst in Hpos.
  rewrite (skill_vertices_built skills g Hg).
  pose proof (get_weight_outcome a b g) as Ho. rewrite Hw in Ho. simpl in Ho.
  case_bool_decide as Hab; [|done]. destruct Hab as [[va Ha] [vb Hb']].
  injection Ho as ->. unfold weight_of. rewrite Ha. simpl.
  destruct (neighbours va !! b) as [w|] eqn:En; simpl; [|split; [lia|done]].
  pose proof (Hpos a va b w Ha En). split; [lia|]. intros _. split; [done|]. split.
  - rewrite !elem_of_list_to_set. apply (built_edges _ _ Hg a va b Ha). eauto.
  - rewrite (get_weight_run g b a vb Hb') by eauto.
    destruct (sound_build_st skills jobs) as (_ & _ & Hm). rewrite <- Hst in Hm.
    by rewrite <- (Hm a b va vb Ha Hb'), En.
Qed.

Lemma build_graph_edges_witness :
  let g := build_st ["python"] jobs_ex in
  0 <= 2
  /\ (2 <> 0 -> 1 <= 2
      /\ ("python" ∈ get_all_vertices "skill" g \/ "B at X" ∈ get_all_vertices "skill" g)
      /\ get_weight "B at X" "python" g = (Ok 2, g)).
Proof.
  intros g. apply (build_graph_edges ["python"] jobs_ex g "python" "B at X" 2);
    by vm_compute.
Defined.

(** * Occurrences and edges *)

Section Occurrences.

Implicit Types (g : WeightedGraph) (skills : list string) (jobs : list posting).

Lemma starts_with_empty s : starts_with "" s = true.
Proof. by destruct s. Qed.

Lemma count_scan_pos sub s :
  sub <> "" -> (0 < count_scan sub s 0)%nat <-> str_in sub s = true.
Proof.
  intros Hne. induction s as [|c s IH].
  - simpl. destruct sub; [done|]. simpl. split; [lia|done].
  - cbn [count_scan str_in]. destruct (starts_with sub (String c s)); simpl.
    + split; [done|lia].
    + exact IH.
Qed.

Lemma str_count_nonneg s sub : 0 <= str_count s sub.
Proof. unfold str_count. destruct sub; lia. Qed.

Lemma str_count_pos_iff s sub : 0 < str_count s sub <-> str_in sub s = true.
Proof.
  unfold str_count. destruct sub as [|a sub].
  - split; [|lia]. intros _. destruct s; done.
  - rewrite <- (count_scan_pos (String a sub) s) by done. lia.
Qed.

Lemma match_total_sum content skills acc :
  match_total content skills acc
  = acc + foldr (fun s t => str_count content (lower s) + t) 0 skills.
Proof.
  unfold match_total. revert acc. induction skills as [|s skills IH]; intros acc; simpl.
  - lia.
  - rewrite IH. pose proof (str_count_nonneg content (lower s)).
    destruct (Z.ltb_spec 0 (str_count content (lower s))); lia.
Qed.

Lemma match_total_zero_iff content skills :
  match_total content skills 0 = 0
  <-> forall s, s ∈ skills -> str_in (lower s) content = false.
Proof.
  split.
  - intros Hz s Hin. destruct (str_in (lower s) content) eqn:E; [|done].
    apply str_count_pos_iff in E.
    pose proof (match_total_pos content skills 0 s Hin E). lia.
  - intros Hall. rewrite match_total_sum. induction skills as [|s skills IH]; [done|].
    simpl. rewrite Z.add_0_l in *.
    assert (str_count content (lower s) = 0) as ->.
    { pose proof (str_count_nonneg content (lower s)).
      destruct (Z.ltb_spec 0 (str_count content (lower s))) as [Hp|]; [|lia].
      apply str_count_pos_iff in Hp. rewrite Hall in Hp; [done|by left]. }
    rewrite Z.add_0_l. apply IH. intros x Hx. apply Hall. by right.
Qed.

Lemma edge_from_add_vertex_st a b it kd g :
  edge_from a b g -> edge_from a b (add_vertex_st it kd g).
Proof.
  intros (v & Hv & Hn). exists v. split; [|done].
  unfold add_vertex_st. destruct (g !! it) eqn:E; [done|].
  rewrite lookup_insert_ne; [done|]. intros ->. congruence.
Qed.

Lemma edge_from_link a b item1 item2 w g :
  edge_from a b g -> edge_from a b (link item1 item2 w g).
Proof.
  intros (v & Hv & Hn). unfold edge_from. rewrite lookup_link, Hv. simpl.
  eexists. split; [reflexivity|].
  repeat case_decide; simpl; rewrite ?lookup_insert_is_Some'; auto.
Qed.

Lemma edge_from_link_new a b w g :
  is_Some (g !! a) -> edge_from a b (link a b w g).
Proof.
  intros [v Hv]. unfold edge_from. rewrite lookup_link, Hv. simpl.
  eexists. split; [reflexivity|].
  repeat case_decide; simpl; rewrite ?lookup_insert_is_Some'; auto; done.
Qed.

Lemma edge_from_match_fold a b content j sub g :
  edge_from a b g -> edge_from a b (foldl (match_step content j) g sub).
Proof.
  revert g. induction sub as [|s sub IH]; intros g Hg; [done|]. simpl. apply IH.
  unfold match_step. case_match; [by apply edge_from_link|done].
Qed.

Lemma edge_from_add_job a b skills g job :
  edge_from a b g -> edge_from a b (add_job_st skills g job).
Proof.
  intros Hg. unfold add_job_st.
  assert (edge_from a b (foldl (match_step (content_of job) (job_id_of job))
                           (add_vertex_st (job_id_of job) "job" g) skills)) as H2.
  { by apply edge_from_match_fold, edge_from_add_vertex_st. }
  destruct skills as [|s0 skills]; [done|]. case_match; [|done].
  by apply edge_from_link, edge_from_add_vertex_st.
Qed.

Lemma edge_from_jobs a b skills g jobs :
  edge_from a b g -> edge_from a b (foldl (add_job_st skills) g jobs).
Proof.
  revert g. induction jobs as [|job jobs IH]; intros g Hg; [done|]. simpl.
  by apply IH, edge_from_add_job.
Qed.

Lemma edge_from_match_fold_new content j sub g s :
  s ∈ sub -> 0 < str_count content (lower s) -> is_Some (g !! lower s) ->
  edge_from (lower s) j (foldl (match_step content j) g sub).
Proof.
  revert g. induction sub as [|x sub IH]; intros g Hin Hc Hs.
  - by apply elem_of_nil in Hin.
  - simpl. apply elem_of_cons in Hin as [<-|Hin].
    + apply edge_from_match_fold. unfold match_step.
      apply Z.ltb_lt in Hc as ->. by apply edge_from_link_new.
    + apply IH; [done|done|]. by apply match_step_is_Some.
Qed.

(** Each posting leaves an edge behind: to its own label from a skill that
    occurs in its text, or to its fallback label from the first skill. *)
Lemma add_job_st_edge skills g job :
  has_skills skills g ->
  (forall s, s ∈ skills -> str_in (lower s) (content_of job) = true ->
             edge_from (lower s) (job_id_of job) (add_job_st skills g job))
  /\ (forall s0 rest, skills = s0 :: rest ->
      (forall s, s ∈ skills -> str_in (lower s) (content_of job) = false) ->
      edge_from (lower s0) (job_id_of job ++ low_match_suffix)%string
        (add_job_st skills g job)).
Proof.
  intros Hs. unfold add_job_st.
  set (g1 := add_vertex_st (job_id_of job) "job" g).
  assert (forall s, s ∈ skills -> is_Some (g1 !! lower s)) as Hs1.
  { intros s Hin. apply add_vertex_st_is_Some. right. by apply Hs. }
  split.
  - intros s Hin Hocc. apply str_count_pos_iff in Hocc.
    assert (edge_from (lower s) (job_id_of job)
              (foldl (match_step (content_of job) (job_id_of job)) g1 skills)) as H2.
    { apply (edge_from_match_fold_new _ _ skills g1 s); auto. }
    destruct skills as [|s0 skills]; [done|]. case_match; [|done].
    by apply edge_from_link, edge_from_add_vertex_st.
  - intros s0 rest -> Hnone. apply match_total_zero_iff in Hnone. rewrite Hnone.
    change (0 =? 0) with true. cbv iota.
    apply edge_from_link_new, add_vertex_st_is_Some. right.
    apply foldl_match_step_is_Some, Hs1. by left.
Qed.

Lemma edge_from_get_weight skills jobs a b :
  edge_from a b (build_st skills jobs) ->
  exists w, 1 <= w /\ get_weight a b (build_st skills jobs) = (Ok w, build_st skills jobs).
Proof.
  intros (v & Hv & [w Hw]). exists w. split.
  - by apply (weights_pos_build_st skills jobs a v b w).
  - destruct (sound_build_st skills jobs) as (_ & Hc & _).
    rewrite (get_weight_run _ a b v Hv) by (apply (Hc a v b Hv); eauto). by rewrite Hw.
Qed.

End Occurrences.

(** X8.  With a non-empty skill list, every posting leaves an edge in the
    graph [build_graph] returns: from each skill whose lower-cased form
    occurs in the posting's lower-cased text to the posting's label, and,
    when no skill occurs in it, from the first skill to the posting's
    "[Low Match]" label.  The weight is at least 1. *)
Theorem build_graph_connects (skills : list string) (jobs : list posting) (g : WeightedGraph)
    (job : posting) (s0 : string) (rest : list string) :
  build_graph skills jobs = Ok g -> job ∈ jobs -> skills = s0 :: rest ->
  (forall s, s ∈ skills -> str_in (lower s) (content_of job) = true ->
     exists w, 1 <= w /\ get_weight (lower s) (job_id_of job) g = (Ok w, g))
  /\ ((forall s, s ∈ skills -> str_in (lower s) (content_of job) = false) ->
     exists w, 1 <= w
       /\ get_weight (lower s0) (job_id_of job ++ low_match_suffix)%string g = (Ok w, g)).
Proof.
  intros Hb Hin Hsk. apply build_graph_ok_inv in Hb as [_ ->].
  apply list_elem_of_split in Hin as (l1 & l2 & ->).
  assert (has_skills skills (foldl (add_job_st skills) (skills_st skills ∅) l1)) as Hs.
  { generalize (skills_st_has_skills skills ∅). generalize (skills_st skills ∅).
    induction l1 as [|x l1 IH]; intros g0 Hg0; [done|]. simpl.
    by apply IH, add_job_st_has_skills. }
  destruct (add_job_st_edge skills _ job Hs) as [Ha Hb].
  split.
  - intros s Hs' Hocc. apply (edge_from_get_weight skills (l1 ++ job :: l2)).
    unfold build_st. rewrite foldl_app. simpl. apply edge_from_jobs. by apply Ha.
  - intros Hnone. apply (edge_from_get_weight skills (l1 ++ job :: l2)).
    unfold build_st. rewrite foldl_app. simpl. apply edge_from_jobs.
    by apply (Hb s0 rest).
Qed.

Lemma build_graph_connects_witness :
  let g := build_st ["Python"] jobs_ex in
  (forall s, s ∈ ["Python"] -> str_in (lower s) (content_of job_c) = true ->
     exists w, 1 <= w /\ get_weight (lower s) (job_id_of job_c) g = (Ok w, g))
  /\ ((forall s, s ∈ ["Python"] -> str_in (lower s) (content_of job_c) = false) ->
     exists w, 1 <= w
       /\ get_weight (lower "Python") (job_id_of job_c ++ low_match_suffix)%string g
          = (Ok w, g)).
Proof.
  intros g. apply (build_graph_connects ["Python"] jobs_ex g job_c "Python" []).
  - by vm_compute.
  - unfold jobs_ex. set_solver.
  - reflexivity.
Defined.

(** * Weights are occurrence counts *)

Section Counts.

Implicit Types (g : WeightedGraph) (skills : list string) (jobs : list posting).













End Counts.

Section CountsMore.

Implicit Types (g : WeightedGraph) (skills : list string) (jobs : list posting).


Lemma job_id_in_build_st skills jobs job :
  job ∈ jobs -> is_Some (build_st skills jobs !! job_id_of job).
Proof.
  intros Hin. apply elem_of_dom. rewrite dom_build_st.
  apply elem_of_union_r, elem_of_list_to_set, list_elem_of_bind.
  exists job. split; [|done]. unfold job_labels. by left.
Qed.

End CountsMore.





(** * Matching ignores case *)

Section Case.

Implicit Types (g : WeightedGraph) (skills : list string) (jobs : list posting).

Lemma lower_app (s t : string) : lower (s ++ t)%string = (lower s ++ lower t)%string.
Proof. induction s as [|c s IH]; [done|]. simpl. by rewrite IH. Qed.

Lemma skills_st_lower skills g : skills_st (lower <$> skills) g = skills_st skills g.
Proof.
  unfold skills_st. revert g. induction skills as [|s skills IH]; intros g; [done|].
  simpl. by rewrite lower_idemp, IH.
Qed.

Lemma match_fold_lower content j skills g :
  foldl (match_step content j) g (lower <$> skills) = foldl (match_step content j) g skills.
Proof.
  revert g. induction skills as [|s skills IH]; intros g; [done|]. simpl.
  unfold match_step at 2 4. by rewrite lower_idemp, IH.
Qed.

Lemma match_total_lower content skills acc :
  match_total content (lower <$> skills) acc = match_total content skills acc.
Proof.
  unfold match_total. revert acc. induction skills as [|s skills IH]; intros acc; [done|].
  simpl. by rewrite lower_idemp, IH.
Qed.

Lemma add_job_st_lower skills g job :
  add_job_st (lower <$> skills) g job = add_job_st skills g job.
Proof.
  unfold add_job_st. rewrite match_fold_lower, match_total_lower.
  destruct skills as [|s0 skills]; [done|]. simpl. by rewrite lower_idemp.
Qed.

Lemma has_skills_lower skills g : has_skills (lower <$> skills) g <-> has_skills skills g.
Proof.
  unfold has_skills. split.
  - intros H s Hin. rewrite <- lower_idemp. apply H. by apply list_elem_of_fmap_2.
  - intros H s (x & -> & Hx)%list_elem_of_fmap. rewrite lower_idemp. by apply H.
Qed.

Lemma for_in_add_job_ext skills skills' (f : posting -> posting) jobs g :
  (forall g job, add_job_st skills' g (f job) = add_job_st skills g job) ->
  (forall job, well_formed (f job) <-> well_formed job) ->
  (forall g, has_skills skills' g <-> has_skills skills g) ->
  has_skills skills g ->
  for_in (f <$> jobs) (add_job skills') tt g = for_in jobs (add_job skills) tt g.
Proof.
  intros Hst Hwf Hhs. revert g. induction jobs as [|job jobs IH]; intros g Hs; [done|].
  rewrite fmap_cons, !for_in_cons. destruct (decide (well_formed job)) as [Hw|Hw].
  - rewrite (add_job_run skills' (f job) g) by (by apply Hwf || by apply Hhs).
    rewrite (add_job_run skills job g) by done. rewrite Hst.
    apply IH. by apply add_job_st_has_skills.
  - rewrite !add_job_raise; [done|done|]. by rewrite Hwf.
Qed.

Lemma job_id_of_lower_text job : job_id_of (lower_text job) = job_id_of job.
Proof. unfold job_id_of, lower_text. by rewrite !lookup_alter_ne by done. Qed.

Lemma content_of_lower_text job : content_of (lower_text job) = content_of job.
Proof.
  unfold content_of, get_or_empty, lower_text.
  rewrite lookup_alter_eq, (lookup_alter_ne _ _ "description" "text") by done.
  rewrite (lookup_alter_ne _ _ "text" "description") by done. rewrite lookup_alter_eq.
  rewrite !lower_app.
  destruct (job !! "text"), (job !! "description"); simpl; by rewrite ?lower_idemp.
Qed.

Lemma well_formed_lower_text job : well_formed (lower_text job) <-> well_formed job.
Proof. unfold well_formed, lower_text. by rewrite !lookup_alter_ne by done. Qed.

Lemma add_job_st_lower_text skills g job :
  add_job_st skills g (lower_text job) = add_job_st skills g job.
Proof.
  unfold add_job_st. by rewrite job_id_of_lower_text, content_of_lower_text.
Qed.

End Case.

(** X11.  Matching ignores case: [build_graph] returns the same graph (or
    raises the same exception) when the skills are given in lower case, and
    when the [text] and [description] of the postings are. *)
Theorem build_graph_ignores_case (skills : list string) (jobs : list posting) :
  build_graph (lower <$> skills) jobs = build_graph skills jobs
  /\ build_graph skills (lower_text <$> jobs) = build_graph skills jobs.
Proof.
  unfold build_graph, build_graph_body, bind. split.
  - rewrite !for_in_add_skills, skills_st_lower.
    rewrite <- (list_fmap_id jobs) at 1.
    by rewrite (for_in_add_job_ext skills (lower <$> skills) id jobs)
      by (auto using add_job_st_lower, has_skills_lower, skills_st_has_skills).
  - rewrite !for_in_add_skills.
    by rewrite (for_in_add_job_ext skills skills lower_text jobs)
      by (auto using add_job_st_lower_text, well_formed_lower_text, skills_st_has_skills).
Qed.

(** * Further properties of recommend_jobs *)

Section RecommendMore.

Implicit Types (g : WeightedGraph) (skills ids : list string).

Lemma for_in_score_job_totals skills ids acc g scores g' :
  for_in ids (score_job skills) acc g = (Ok scores, g') ->
  Forall (fun job => total_weight skills job g = (Ok (tw_of skills job g), g)) ids.
Proof.
  revert acc. induction ids as [|job ids IH]; intros acc; [constructor|].
  rewrite for_in_cons. unfold score_job at 1, bind.
  destruct (total_weight skills job g) as [[t|e] g1] eqn:Et; [|done].
  destruct (total_weight_ok _ _ _ _ _ Et) as [-> ->].
  destruct (0 <? tw_of skills job g); simpl; intros H; (constructor; [done|by eapply IH]).
Qed.

Lemma recommend_jobs_totals I skills limit g out g' :
  recommend_jobs I skills limit g = (Ok out, g') ->
  forall job, job ∈ get_all_vertices "job" g ->
              total_weight skills job g = (Ok (tw_of skills job g), g).
Proof.
  unfold recommend_jobs. unfold bind at 1. simpl. unfold bind.
  destruct (for_in _ _ _ _) as [[scores|e] g1] eqn:Ef; [|done].
  intros _ job Hj. apply for_in_score_job_totals in Ef. rewrite Forall_forall in Ef.
  by apply Ef, elem_of_iter.
Qed.

Lemma elem_of_ranking skills g ids job s :
  (job, s) ∈ ranking skills g ids ->
  job ∈ ids /\ s = if 0 <? tw_of skills job g then tw_of skills job g else 1.
Proof.
  unfold ranking. rewrite elem_of_app, sort_scores_perm. intros [H|H].
  - apply elem_of_kept in H as (Hj & Hs & Hp). simpl in *. subst s. split; [done|].
    by apply Z.ltb_lt in Hp as ->.
  - apply list_elem_of_fmap in H as (x & Heq & Hx). injection Heq as -> ->.
    apply list_elem_of_filter in Hx as [Hnk Hx]. split; [done|].
    rewrite elem_of_kept_labels in Hnk.
    destruct (Z.ltb_spec 0 (tw_of skills x g)); [tauto|done].
Qed.

Lemma cut_nonneg limit n : 0 <= limit -> cut limit n = Z.to_nat limit.
Proof. intros H. unfold cut. by destruct (Z.leb_spec 0 limit); [|lia]. Qed.

End RecommendMore.

(** X12.  On a graph returned by [build_graph], [recommend_jobs] raises
    nothing and leaves the graph as it is, for every skill list and limit;
    for a limit of 0 or more it returns as many entries as the limit allows
    and the graph has job vertices: never more than the limit. *)
Theorem recommend_jobs_length (I : SetIter) (skills : list string) (jobs : list posting)
    (g : WeightedGraph) (skills' : list string) (limit : Z) :
  build_graph skills jobs = Ok g ->
  exists out, recommend_jobs I skills' limit g = (Ok out, g)
    /\ (0 <= limit ->
        length out = (Z.to_nat limit `min` size (get_all_vertices "job" g))%nat).
Proof.
  intros Hb. apply build_graph_built in Hb.
  eexists. split; [apply recommend_jobs_run, Hb|]. intros Hl.
  rewrite length_take, length_ranking, cut_nonneg by done.
  f_equal. unfold size, set_size. simpl. by rewrite (iter_perm I).
Qed.

Lemma recommend_jobs_length_witness :
  exists out, recommend_jobs iter_elements ["go"] 3 (build_st ["python"] jobs_ex)
              = (Ok out, build_st ["python"] jobs_ex)
    /\ (0 <= 3 ->
        length out
        = (Z.to_nat 3 `min` size (get_all_vertices "job" (build_st ["python"] jobs_ex)))%nat).
Proof.
  apply (recommend_jobs_length iter_elements ["python"] jobs_ex
           (build_st ["python"] jobs_ex) ["go"] 3). by vm_compute.
Defined.

(** X13.  Whenever [recommend_jobs] returns, no label occurs twice in the
    list, every label is a job vertex of the graph, and every score is the
    sum computed for the label when that sum is positive and 1 otherwise:
    no entry has a score below 1. *)
Theorem recommend_jobs_entries (I : SetIter) (skills : list string) (limit : Z)
    (g g' : WeightedGraph) (out : list (string * Z)) :
  recommend_jobs I skills limit g = (Ok out, g') ->
  NoDup out.*1
  /\ forall job s, (job, s) ∈ out ->
       job ∈ get_all_vertices "job" g
       /\ 1 <= s
       /\ exists t, total_weight skills job g = (Ok t, g)
                    /\ s = if 0 <? t then t else 1.
Proof.
  intros Hrun. pose proof (recommend_jobs_totals _ _ _ _ _ _ Hrun) as Htot.
  apply recommend_jobs_ok in Hrun as [-> ->].
  set (ids := iter I (get_all_vertices "job" g)). split.
  - rewrite fmap_take. eapply sublist_NoDup; [|apply sublist_take].
    apply ranking_NoDup, iter_NoDup.
  - intros job s Hin.
    assert ((job, s) ∈ ranking skills g ids) as Hr.
    { apply list_elem_of_lookup in Hin as [i Hi]. apply lookup_take_Some in Hi as [Hi _].
      by eapply list_elem_of_lookup_2. }
    apply elem_of_ranking in Hr as [Hj ->]. apply elem_of_iter in Hj.
    split; [done|]. split.
    + destruct (Z.ltb_spec 0 (tw_of skills job g)); lia.
    + exists (tw_of skills job g). split; [by apply Htot|done].
Qed.

Lemma recommend_jobs_entries_witness :
  let out := [("B at X", 2); ("A at X", 1); ("C at X [Low Match]", 1)] in
  let g := build_st ["python"] jobs_ex in
  NoDup out.*1
  /\ forall job s, (job, s) ∈ out ->
       job ∈ get_all_vertices "job" g
       /\ 1 <= s
       /\ exists t, total_weight ["python"] job g = (Ok t, g)
                    /\ s = if 0 <? t then t else 1.
Proof.
  intros out g.
  apply (recommend_jobs_entries iter_elements ["python"] 3 g g out). by vm_compute.
Defined.

(** X14.  Raising the limit only appends: for limits [0 <= limit1 <= limit2]
    the list returned for [limit1] is the first [limit1] entries of the list
    returned for [limit2]. *)
Theorem recommend_jobs_prefix (I : SetIter) (skills : list string) (limit1 limit2 : Z)
    (g g1 g2 : WeightedGraph) (out1 out2 : list (string * Z)) :
  0 <= limit1 -> limit1 <= limit2 ->
  recommend_jobs I skills limit1 g = (Ok out1, g1) ->
  recommend_jobs I skills limit2 g = (Ok out2, g2) ->
  out1 = take (Z.to_nat limit1) out2.
Proof.
  intros H1 H2 Hr1 Hr2.
  apply recommend_jobs_ok in Hr1 as [_ ->]. apply recommend_jobs_ok in Hr2 as [_ ->].
  rewrite !cut_nonneg by lia. rewrite take_take. f_equal. lia.
Qed.

Lemma recommend_jobs_prefix_witness :
  [("B at X", 2); ("A at X", 1)]
  = take (Z.to_nat 2) [("B at X", 2); ("A at X", 1); ("C at X [Low Match]", 1)].
Proof.
  apply (recommend_jobs_prefix iter_elements ["python"] 2 3 (build_st ["python"] jobs_ex)
           (build_st ["python"] jobs_ex) (build_st ["python"] jobs_ex));
    try lia; by vm_compute.
Defined.

(** X15.  The user always sees results: with a positive limit and at least
    one posting whose label is not itself a lower-cased skill, the list
    [recommend_jobs] returns on the graph of [build_graph] is not empty,
    whether or not any skill occurs in any posting. *)
Theorem results_not_empty (I : SetIter) (skills : list string) (jobs : list posting)
    (g : WeightedGraph) (job : posting) (limit : Z) :
  build_graph skills jobs = Ok g -> 0 < limit ->
  job ∈ jobs -> job_id_of job ∉ lower <$> skills ->
  exists entry rest, recommend_jobs I skills limit g = (Ok (entry :: rest), g).
Proof.
  intros Hb Hl Hin Hj. pose proof (build_graph_built _ _ _ Hb) as Hg.
  apply build_graph_ok_inv in Hb as [_ ->]. set (g := build_st skills jobs) in *.
  assert (job_id_of job ∈ get_all_vertices "job" g) as Hv.
  { rewrite (job_vertices_built skills) by done. apply elem_of_difference. split.
    - apply elem_of_dom, job_id_in_build_st, Hin.
    - by rewrite elem_of_list_to_set. }
  assert (size (get_all_vertices "job" g) <> 0%nat) as Hsz.
  { intros Hz. apply size_empty_inv in Hz. set_solver. }
  rewrite (recommend_jobs_run I skills limit g) by apply Hg.
  set (out := take _ _).
  assert (length out = (Z.to_nat limit `min` size (get_all_vertices "job" g))%nat) as Hlen.
  { unfold out. rewrite length_take, length_ranking, cut_nonneg by lia.
    f_equal. unfold size, set_size. simpl. by rewrite (iter_perm I). }
  destruct out as [|entry rest]; [simpl in Hlen; lia|]. eauto.
Qed.

Lemma results_not_empty_witness :
  exists entry rest,
    recommend_jobs iter_elements ["cobol"] 5 (build_st ["cobol"] jobs_ex)
    = (Ok (entry :: rest), build_st ["cobol"] jobs_ex).
Proof.
  apply (results_not_empty iter_elements ["cobol"] jobs_ex (build_st ["cobol"] jobs_ex)
           job_a 5).
  - by vm_compute.
  - lia.
  - unfold jobs_ex. set_solver.
  - apply (bool_decide_unpack _). vm_compute. exact Logic.I.
Defined.

(** * The console front end *)

Section Strip.

Lemma lstrip_no_lead (s : string) :
  match lstrip s with String c _ => is_space c = false | EmptyString => True end.
Proof.
  induction s as [|c s IH]; [done|]. simpl. destruct (is_space c) eqn:E; [done|]. exact E.
Qed.

Lemma lstrip_id (s : string) :
  match s with String c _ => is_space c = false | EmptyString => True end ->
  lstrip s = s.
Proof. destruct s as [|c s]; [done|]. simpl. by intros ->. Qed.

Lemma rstrip_idemp (s : string) : rstrip (rstrip s) = rstrip s.
Proof.
  induction s as [|c s IH]; [done|]. simpl.
  destruct (rstrip s) as [|c' r] eqn:E.
  - destruct (is_space c) eqn:Ec; [done|]. simpl. by rewrite Ec.
  - simpl. simpl in IH. by rewrite IH.
Qed.

Lemma rstrip_no_lead (s : string) :
  match s with String c _ => is_space c = false | EmptyString => True end ->
  match rstrip s with String c _ => is_space c = false | EmptyString => True end.
Proof.
  destruct s as [|c s]; [done|]. simpl. intros Hc.
  destruct (rstrip s); [by rewrite Hc|done].
Qed.

Lemma strip_idemp (s : string) : strip (strip s) = strip s.
Proof.
  unfold strip. rewrite (lstrip_id (rstrip (lstrip s))).
  - apply rstrip_idemp.
  - apply rstrip_no_lead, lstrip_no_lead.
Qed.

Lemma nonempty_true (s : string) : nonempty s = true <-> s <> "".
Proof. by destruct s. Qed.

End Strip.

Section Prompt.

Lemma prompt_loop_some (lines out skills0 skills : list string) (c' : console) :
  (length skills0 <= 5)%nat ->
  prompt_loop lines out skills0 = (Some skills, c') ->
  exists k, skills = skills0 ++ (strip <$> take k lines)
    /\ (length skills <= 5)%nat
    /\ Forall (fun line => nonempty (strip line) = true) (take k lines)
    /\ (k <= length lines)%nat
    /\ if (length skills <? 5)%nat
       then exists blank, drop k lines = blank :: stdin c' /\ strip blank = ""
       else stdin c' = drop k lines.
Proof.
  revert out skills0. induction lines as [|line rest IH]; intros out skills0 Hlen.
  - simpl. destruct (Nat.ltb_spec (length skills0) 5); [done|].
    intros [= <- <-]. exists 0%nat. simpl. rewrite app_nil_r.
    repeat split; try done; try lia.
    by destruct (Nat.ltb_spec (length skills0) 5); [lia|].
  - cbn [prompt_loop]. destruct (Nat.ltb_spec (length skills0) 5) as [Hlt|Hge].
    + destruct (nonempty (strip line)) eqn:Hne.
      * intros Hrun. apply IH in Hrun as (k & -> & Hl & Hall & Hk & Hrest);
          [|rewrite length_app; simpl; lia].
        clear IH. rewrite <- app_assoc in Hl, Hrest. simpl in Hl, Hrest.
        exists (S k). simpl. rewrite <- app_assoc. simpl.
        repeat split; try done; try lia. by constructor.
      * intros [= <- <-]. exists 0%nat. simpl. rewrite app_nil_r.
        repeat split; try done; try lia.
        destruct (Nat.ltb_spec (length skills0) 5); [|lia].
        exists line. split; [done|]. by destruct (strip line).
    + intros [= <- <-]. exists 0%nat. simpl. rewrite app_nil_r.
      repeat split; try done; try lia.
      by destruct (Nat.ltb_spec (length skills0) 5); [lia|].
Qed.

Lemma prompt_loop_none (lines out skills0 : list string) :
  (length skills0 <= 5)%nat ->
  (prompt_loop lines out skills0).1 = None
  <-> (length skills0 + length lines < 5)%nat
      /\ Forall (fun line => nonempty (strip line) = true) lines.
Proof.
  revert out skills0. induction lines as [|line rest IH]; intros out skills0 Hlen.
  - simpl. destruct (Nat.ltb_spec (length skills0) 5); simpl.
    + split; [intros _; split; [lia|constructor]|done].
    + split; [done|]. intros [? _]. lia.
  - cbn [prompt_loop]. destruct (Nat.ltb_spec (length skills0) 5) as [Hlt|Hge].
    + destruct (nonempty (strip line)) eqn:Hne.
      * rewrite IH by (rewrite length_app; simpl; lia).
        rewrite Forall_cons, length_app. simpl. split.
        -- intros [? ?]. split; [lia|done].
        -- intros [? [? ?]]. split; [lia|done].
      * simpl. split; [done|]. rewrite Forall_cons. intros [_ [? _]]. congruence.
    + simpl. split; [done|]. intros [? _]. lia.
Qed.

End Prompt.

(** X16.  The skills [prompt_skills] returns are the lines read, stripped, in
    order: at most 5, none empty, each free of surrounding whitespace.  With
    fewer than 5 skills the line read next was blank and is consumed; with
    5 no further line is read. *)
Theorem prompt_skills_returns (c c' : console) (skills : list string) :
  prompt_skills c = (Some skills, c') ->
  (length skills <= 5)%nat
  /\ skills = strip <$> take (length skills) (stdin c)
  /\ Forall (fun s => s <> "" /\ strip s = s) skills
  /\ if (length skills <? 5)%nat
     then exists blank, drop (length skills) (stdin c) = blank :: stdin c'
                        /\ strip blank = ""
     else stdin c' = drop 5 (stdin c).
Proof.
  unfold prompt_skills. intros Hrun.
  apply prompt_loop_some in Hrun as (k & Hs & Hl & Hall & Hk & Hrest); [|simpl; lia].
  simpl in Hs. assert (length skills = k) as Hlen.
  { rewrite Hs, length_fmap, length_take. lia. }
  rewrite Hlen. split; [lia|]. split; [done|]. split.
  - rewrite Hs. apply Forall_fmap. eapply Forall_impl; [exact Hall|].
    intros line Hne. simpl. split; [by apply nonempty_true|apply strip_idemp].
  - rewrite Hlen in Hrest. destruct (Nat.ltb_spec k 5); [done|].
    by replace 5%nat with k by lia.
Qed.

Lemma prompt_skills_returns_witness :
  let c := mkConsole ["  Python "; "go"; " "; "x"] [] in
  (length ["Python"; "go"] <= 5)%nat
  /\ ["Python"; "go"] = strip <$> take (length ["Python"; "go"]) (stdin c)
  /\ Forall (fun s => s <> "" /\ strip s = s) ["Python"; "go"]
  /\ if (length ["Python"; "go"] <? 5)%nat
     then exists blank, drop (length ["Python"; "go"]) (stdin c)
                        = blank :: stdin (prompt_skills c).2
                        /\ strip blank = ""
     else stdin (prompt_skills c).2 = drop 5 (stdin c).
Proof.
  intros c. apply (prompt_skills_returns c (prompt_skills c).2 ["Python"; "go"]).
  by vm_compute.
Defined.

(** X17.  [prompt_skills] fails with [EOFError] exactly when the input ends
    before a fifth skill or a blank line: fewer than 5 lines are left and
    none of them is blank. *)
Theorem prompt_skills_eof (c : console) :
  (prompt_skills c).1 = None
  <-> (length (stdin c) < 5)%nat /\ Forall (fun line => strip line <> "") (stdin c).
Proof.
  unfold prompt_skills. rewrite prompt_loop_none by (simpl; lia). simpl.
  split; intros [? Hall]; (split; [done|]); eapply Forall_impl; try exact Hall;
    intros line; by rewrite nonempty_true.
Qed.

(** * The searches of the two front ends *)

Section Search.

Implicit Types (I : SetIter) (http_get : string -> string -> Z -> response).

Lemma recommend_jobs_elem I skills limit g g' out job s :
  recommend_jobs I skills limit g = (Ok out, g') -> (job, s) ∈ out ->
  job ∈ get_all_vertices "job" g
  /\ s = if 0 <? tw_of skills job g then tw_of skills job g else 1.
Proof.
  intros Hrun Hin. apply recommend_jobs_ok in Hrun as [_ ->].
  apply list_elem_of_lookup in Hin as [i Hi]. apply lookup_take_Some in Hi as [Hi _].
  apply list_elem_of_lookup_2, elem_of_ranking in Hi as [Hj ->].
  by apply elem_of_iter in Hj.
Qed.


Lemma run_search_empty I skills limit : run_search I skills [] limit = Ok [].
Proof.
  unfold run_search. rewrite build_graph_run by constructor.
  assert (built skills (build_st skills [])) as Hg.
  { eapply build_graph_built, build_graph_run. constructor. }
  rewrite (recommend_jobs_run I skills limit _ (built_keyed _ _ Hg)). simpl.
  assert (iter I (get_all_vertices "job" (build_st skills [])) = []) as ->.
  { apply Permutation_nil_r. rewrite (iter_perm I).
    rewrite (job_vertices_built skills) by done. rewrite dom_build_st. simpl.
    replace (_ ∖ _) with (∅ : gset string) by set_solver. by rewrite elements_empty. }
  unfold ranking. simpl. by rewrite take_nil.
Qed.

Lemma run_search_ok I skills jobs limit out :
  run_search I skills jobs limit = Ok out ->
  Forall well_formed jobs
  /\ recommend_jobs I skills limit (build_st skills jobs) = (Ok out, build_st skills jobs).
Proof.
  unfold run_search. destruct (build_graph skills jobs) as [g|e] eqn:Hb; [|done].
  pose proof (build_graph_built _ _ _ Hb) as Hg.
  apply build_graph_ok_inv in Hb as [Hw ->]. intros Hrun. split; [done|].
  rewrite (recommend_jobs_run I skills limit _ (built_keyed _ _ Hg)) in Hrun |- *.
  simpl in Hrun. by injection Hrun as <-.
Qed.


Lemma fetch_jobs_failed http_get query api_key limit :
  status_code (http_get query api_key limit) <> 200 ->
  fetch_jobs http_get query api_key limit
  = ([], ["Error fetching jobs: " +:+ pretty (status_code (http_get query api_key limit))]).
Proof.
  intros H. unfold fetch_jobs. cbv zeta.
  by destruct (Z.eqb_spec (status_code (http_get query api_key limit)) 200).
Qed.

Lemma collect_skills_stripped entries :
  Forall (fun s => s <> "" /\ strip s = s) (collect_skills entries).
Proof.
  induction entries as [|entry entries IH]; [constructor|].
  unfold collect_skills in *. simpl. destruct (nonempty (strip entry)) eqn:E; [|done].
  simpl. constructor; [|done]. split; [by apply nonempty_true|apply strip_idemp].
Qed.

Lemma collect_skills_length entries :
  (length (collect_skills entries) <= length entries)%nat.
Proof.
  induction entries as [|entry entries IH]; [done|].
  unfold collect_skills in *. cbn [omap list_omap length].
  destruct (nonempty (strip entry)); cbn [length]; fold (@omap list _ string string) in *; lia.
Qed.


End Search.

Section Details.

Lemma starts_with_app (p s : string) : starts_with p (p ++ s)%string = true.
Proof. induction p as [|c p IH]; [done|]. simpl. by rewrite Ascii.eqb_refl. Qed.

Lemma starts_with_refl (p : string) : starts_with p p = true.
Proof. induction p as [|c p IH]; [done|]. simpl. by rewrite Ascii.eqb_refl. Qed.

Lemma str_in_head (sub s : string) : starts_with sub s = true -> str_in sub s = true.
Proof. intros H. destruct s; simpl in *; by rewrite H. Qed.

Lemma label_in_job_labels skills job label :
  label ∈ job_labels skills job -> str_in (job_id_of job) label = true.
Proof.
  unfold job_labels. intros Hin. apply str_in_head.
  apply elem_of_cons in Hin as [->|Hin]; [apply starts_with_refl|].
  destruct skills; [by apply elem_of_nil in Hin|].
  destruct (_ =? 0); [|by apply elem_of_nil in Hin].
  apply list_elem_of_singleton in Hin as ->. apply starts_with_app.
Qed.

Lemma job_details_first (jobs_raw : list posting) (job : string) :
  Forall well_formed jobs_raw ->
  Exists (fun p => str_in (job_id_of p) job = true) jobs_raw ->
  exists pre j post,
    jobs_raw = pre ++ j :: post
    /\ job_details jobs_raw job = Ok j
    /\ str_in (job_id_of j) job = true
    /\ Forall (fun p => str_in (job_id_of p) job = false) pre.
Proof.
  induction jobs_raw as [|p jobs_raw IH]; intros Hw Hex; [by apply Exists_nil in Hex|].
  apply Forall_cons in Hw as [[[role Hr] [company Hc]] Hw].
  assert (job_id_of p = (role ++ " at " ++ company)%string) as Hid.
  { unfold job_id_of. by rewrite Hr, Hc. }
  simpl. rewrite Hr, Hc, <- Hid.
  destruct (str_in (job_id_of p) job) eqn:Hin.
  - exists [], p, jobs_raw. by repeat split.
  - apply Exists_cons in Hex as [Hex|Hex]; [congruence|].
    destruct (IH Hw Hex) as (pre & j & post & -> & Hd & Hj & Hpre).
    exists (p :: pre), j, post. repeat split; try done. by constructor.
Qed.

End Details.

(** X18.  Both front ends grade an entry alike, and an entry of the list
    [recommend_jobs] returns is graded above low only on its computed score:
    an entry graded "High" has a label without the marker and a score of 6
    or more, one graded "Medium" a score of 3 to 5, and in both cases the
    score is the sum of the weights between the skills and the label; an
    entry whose sum is 0 has the default score 1 and is graded "Low". *)
Theorem match_level_of_entry (I : SetIter) (skills : list string) (limit : Z)
    (g g' : WeightedGraph) (out : list (string * Z)) (job : string) (s : Z) :
  recommend_jobs I skills limit g = (Ok out, g') -> (job, s) ∈ out ->
  match_label job s = (match_level job s ++ " Match")%string
  /\ (match_level job s = "High" ->
      str_in marker job = false /\ 6 <= s /\ total_weight skills job g = (Ok s, g))
  /\ (match_level job s = "Medium" ->
      str_in marker job = false /\ 3 <= s < 6 /\ total_weight skills job g = (Ok s, g))
  /\ (total_weight skills job g = (Ok 0, g) -> s = 1 /\ match_level job s = "Low").
Proof.
  intros Hrun Hin. pose proof (recommend_jobs_totals _ _ _ _ _ _ Hrun) as Htot.
  destruct (recommend_jobs_elem _ _ _ _ _ _ _ _ Hrun Hin) as [Hj Hs].
  specialize (Htot job Hj). rewrite Htot. unfold match_label, match_level.
  assert (0 < tw_of skills job g -> (Ok s, g) = (Ok (tw_of skills job g), g)) as Hpos.
  { intros Hp. destruct (Z.ltb_spec 0 (tw_of skills job g)); [by subst s|lia]. }
  assert (~ 0 < tw_of skills job g -> s = 1) as Hzero.
  { intros Hp. by destruct (Z.ltb_spec 0 (tw_of skills job g)). }
  destruct (Z.lt_decidable 0 (tw_of skills job g)) as [Hp|Hp];
    [specialize (Hpos Hp); injection Hpos as Hs'|specialize (Hzero Hp)];
    destruct (str_in marker job), (Z.leb_spec 6 s), (Z.leb_spec 3 s);
    (split; [done|]); (split; [|split]); try done; try lia;
    try (intros _; split; [done|]; split; [lia|congruence]);
    try (intros [= Hz]; lia).
Qed.

Lemma match_level_of_entry_witness :
  let g := build_st ["python"] [job_of "B" "X" "python, Python and more PYTHON: python python python"] in
  match_label "B at X" 6 = (match_level "B at X" 6 ++ " Match")%string
  /\ (match_level "B at X" 6 = "High" ->
      str_in marker "B at X" = false /\ 6 <= 6
      /\ total_weight ["python"] "B at X" g = (Ok 6, g))
  /\ (match_level "B at X" 6 = "Medium" ->
      str_in marker "B at X" = false /\ 3 <= 6 < 6
      /\ total_weight ["python"] "B at X" g = (Ok 6, g))
  /\ (total_weight ["python"] "B at X" g = (Ok 0, g) ->
      6 = 1 /\ match_level "B at X" 6 = "Low").
Proof.
  intros g.
  apply (match_level_of_entry iter_elements ["python"] 5 g g [("B at X", 6)]);
    [by vm_compute|by left].
Defined.

(** X19.  When the job service answers with a status other than 200, the
    console search prints the status, returns the empty list without
    raising, and [display_top_jobs] prints its apology for that list; the
    window search, given a skill and a key, ends in the results window with
    no posting and no entry. *)
Theorem failed_fetch_finds_nothing (http_get : string -> string -> Z -> response)
    (I : SetIter) (skills : list string) (api_key : string) :
  status_code (http_get (join " " skills) api_key 20) <> 200 ->
  (exists out,
     run_job_search http_get I skills api_key
     = (Ok out, [String "010" "Fetching jobs based on your skills...";
                 "Error fetching jobs: "
                 +:+ pretty (status_code (http_get (join " " skills) api_key 20))])
     /\ display_top_jobs out
        = [String "010" "Top Recommended Jobs:";
           "Sorry, no jobs found at this time. Try again with different or more general skills."])
  /\ (skills <> [] -> api_key <> "" -> Forall (fun s => s <> "" /\ strip s = s) skills ->
      perform_search http_get I skills (Some api_key) = Results [] []).
Proof.
  intros Hst. split.
  - exists []. split; [|done]. unfold run_job_search.
    by rewrite fetch_jobs_failed, run_search_empty.
  - intros Hne Hkey Hall. unfold perform_search.
    assert (collect_skills skills = skills) as ->.
    { clear Hne Hst. induction Hall as [|s l [Hs Hstrip] _ IH]; [done|].
      unfold collect_skills in *. simpl. rewrite Hstrip.
      destruct s; [done|]. simpl. f_equal. exact IH. }
    destruct skills as [|s l]; [done|]. destruct api_key; [done|]. simpl nonempty. cbv iota.
    by rewrite fetch_jobs_failed, run_search_empty.
Qed.

Lemma failed_fetch_finds_nothing_witness :
  let http_get := fun (_ _ : string) (_ : Z) => mkResponse 401 None in
  (exists out,
     run_job_search http_get iter_elements ["python"] "invalid_key"
     = (Ok out, [String "010" "Fetching jobs based on your skills...";
                 "Error fetching jobs: "
                 +:+ pretty (status_code (http_get (join " " ["python"]) "invalid_key" 20))])
     /\ display_top_jobs out
        = [String "010" "Top Recommended Jobs:";
           "Sorry, no jobs found at this time. Try again with different or more general skills."])
  /\ (["python"] <> [] -> "invalid_key" <> "" ->
      Forall (fun s => s <> "" /\ strip s = s) ["python"] ->
      perform_search http_get iter_elements ["python"] (Some "invalid_key") = Results [] []).
Proof.
  intros http_get.
  apply (failed_fetch_finds_nothing http_get iter_elements ["python"] "invalid_key").
  by vm_compute.
Defined.

(** X20.  When [perform_search] reaches the results window, the skills it
    searched with are the non-blank entries, stripped, in order: at least
    one and no more than there are entry fields.  A non-empty key was
    loaded, the postings shown are the ones fetched with the skills joined
    by spaces, each has a role and a company name, and the entries are what
    [recommend_jobs] returns on their graph: at most 5. *)
Theorem perform_search_results (http_get : string -> string -> Z -> response)
    (I : SetIter) (entries : list string) (api_key : option string)
    (jobs_raw : list posting) (top_jobs : list (string * Z)) :
  perform_search http_get I entries api_key = Results jobs_raw top_jobs ->
  let skills := collect_skills entries in
  skills = strip <$> filter (fun entry => strip entry <> "") entries
  /\ skills <> []
  /\ (length skills <= length entries)%nat
  /\ Forall (fun s => s <> "" /\ strip s = s) skills
  /\ (exists key, api_key = Some key /\ key <> ""
        /\ jobs_raw = (fetch_jobs http_get (join " " skills) key 20).1)
  /\ Forall well_formed jobs_raw
  /\ recommend_jobs I skills 5 (build_st skills jobs_raw)
     = (Ok top_jobs, build_st skills jobs_raw)
  /\ (length top_jobs <= 5)%nat.
Proof.
  intros Hrun skills. unfold perform_search in Hrun. fold skills in Hrun.
  split.
  { unfold skills, collect_skills. clear. induction entries as [|entry entries IH]; [done|].
    rewrite filter_cons. cbn [omap list_omap]. fold (@omap list _ string string).
    rewrite IH. case_decide as E.
    - rewrite fmap_cons. by destruct (strip entry).
    - by rewrite E. }
  split; [by destruct skills|].
  split; [apply collect_skills_length|]. split; [apply collect_skills_stripped|].
  destruct skills as [|s l] eqn:Hs; [done|]. rewrite <- Hs in *.
  destruct api_key as [key|]; [|done]. destruct (nonempty key) eqn:Hkey; [|done].
  destruct (run_search I skills _ 5) as [top|e] eqn:Hsearch; [|done].
  injection Hrun as <- <-. apply run_search_ok in Hsearch as [Hw Hrec].
  split; [exists key; by rewrite <- nonempty_true|]. split; [done|]. split; [done|].
  apply recommend_jobs_ok in Hrec as [_ ->]. rewrite length_take, cut_nonneg by lia. lia.
Qed.

Lemma perform_search_results_witness :
  let http_get := fun (_ _ : string) (_ : Z) => mkResponse 200 (Some jobs_ex) in
  let entries := ["  python "; ""; " "; "go"; ""] in
  let skills := collect_skills entries in
  skills = strip <$> filter (fun entry => strip entry <> "") entries
  /\ skills <> []
  /\ (length skills <= length entries)%nat
  /\ Forall (fun s => s <> "" /\ strip s = s) skills
  /\ (exists key, Some "k" = Some key /\ key <> ""
        /\ jobs_ex = (fetch_jobs http_get (join " " skills) key 20).1)
  /\ Forall well_formed jobs_ex
  /\ recommend_jobs iter_elements skills 5 (build_st skills jobs_ex)
     = (Ok [("B at X", 2); ("A at X", 1); ("C at X [Low Match]", 1); ("C at X", 1)],
        build_st skills jobs_ex)
  /\ (length [("B at X", 2); ("A at X", 1); ("C at X [Low Match]", 1); ("C at X", 1)] <= 5)%nat.
Proof.
  intros http_get entries.
  apply (perform_search_results http_get iter_elements entries (Some "k") jobs_ex
           [("B at X", 2); ("A at X", 1); ("C at X [Low Match]", 1); ("C at X", 1)]).
  by vm_compute.
Defined.


(** X22.  For every entry [recommend_jobs] returns on the graph built from
    the fetched postings, the results window finds a posting to take the
    details from, never its empty default: the first posting whose label
    occurs in the entry's label. *)
Theorem job_details_found (I : SetIter) (skills skills' : list string)
    (jobs_raw : list posting) (limit : Z) (g g' : WeightedGraph)
    (out : list (string * Z)) (job : string) (s : Z) :
  build_graph skills jobs_raw = Ok g ->
  recommend_jobs I skills' limit g = (Ok out, g') ->
  (job, s) ∈ out ->
  exists pre j post,
    jobs_raw = pre ++ j :: post
    /\ job_details jobs_raw job = Ok j
    /\ str_in (job_id_of j) job = true
    /\ Forall (fun p => str_in (job_id_of p) job = false) pre.
Proof.
  intros Hb Hrun Hin. pose proof (build_graph_built _ _ _ Hb) as Hg.
  apply build_graph_ok_inv in Hb as [Hw ->].
  destruct (recommend_jobs_elem _ _ _ _ _ _ _ _ Hrun Hin) as [Hj _].
  rewrite (job_vertices_built skills) in Hj by done. rewrite dom_build_st in Hj.
  apply job_details_first; [done|].
  apply elem_of_difference in Hj as [Hj Hns].
  apply elem_of_union in Hj as [Hj|Hj]; [done|].
  apply elem_of_list_to_set, list_elem_of_bind in Hj as (p & Hl & Hp).
  apply Exists_exists. exists p. split; [done|]. by eapply label_in_job_labels.
Qed.

Lemma job_details_found_witness :
  exists pre j post,
    jobs_ex = pre ++ j :: post
    /\ job_details jobs_ex "C at X [Low Match]" = Ok j
    /\ str_in (job_id_of j) "C at X [Low Match]" = true
    /\ Forall (fun p => str_in (job_id_of p) "C at X [Low Match]" = false) pre.
Proof.
  apply (job_details_found iter_elements ["python"] ["python"] jobs_ex 5
           (build_st ["python"] jobs_ex) (build_st ["python"] jobs_ex)
           [("B at X", 2); ("A at X", 1); ("C at X [Low Match]", 1); ("C at X", 1)]
           "C at X [Low Match]" 1); [by vm_compute|by vm_compute|].
  do 2 right. by left.
Defined.
